(** * Verification of the AIKyudo form analyser

    Shallow embedding of the replay scheduler ([startReplay], [stopReplay],
    [toggleReplayPause], [handleSeek] and the speed buttons of
    src/src/components/VideoAnalyzer.tsx), of the form scorer [evaluateForm]
    of the same file, and of [calcAngle] / [calcKyudoAngles] of
    src/src/components/PoseOverlay.tsx.

    Timestamps of the replay scheduler are rationals ([Q]): the loop only adds,
    multiplies and compares them.  The scorer and the geometry need square
    roots and inverse trigonometric functions and are written over the reals
    ([R]), an idealisation of JavaScript numbers. *)

From Stdlib Require Import QArith Qround List Bool Lia Arith.
Import ListNotations.

Module Replay.

(** [StoredFrame] of VideoAnalyzer.tsx; the landmarks are only drawn by the
    loop, never inspected, so they are left out. *)
Record StoredFrame := mkFrame { frame : nat; timeMs : Q }.

(** The replay refs and the state read by the loop.  [isReplaying] is true
    exactly while a replay animation-frame callback is scheduled
    ([replayRafRef] non-null); [loopSpeed], [lastRealTime] and
    [lastFrameTime] are the variables captured by the [loop] closure that
    the current [startReplay] call created. *)
Record ReplayState := mkState {
  isReplaying   : bool;
  replayPaused  : bool;        (* replayPausedRef.current *)
  replayIdx     : nat;         (* replayIdxRef.current *)
  replaySpeed   : Q;           (* React state replaySpeed *)
  loopSpeed     : Q;           (* argument [speed] of startReplay *)
  lastRealTime  : option Q;    (* let lastRealTime: number | null *)
  lastFrameTime : Q }.

Definition initialState : ReplayState :=
  mkState false false 0 1 1 None 0.

(** [stored[i].timeMs], and [stored[i]?.timeMs ?? 0]. *)
Definition tsAt (stored : list StoredFrame) (i : nat) : Q :=
  match nth_error stored i with
  | Some f => timeMs f
  | None => 0
  end.

(** [while (nextIdx < stored.length-1 && stored[nextIdx].timeMs <= lastFrameTime) nextIdx++;]
    The loop runs at most [stored.length] times, which is the fuel. *)
Fixpoint advance (fuel : nat) (stored : list StoredFrame) (t : Q) (i : nat) : nat :=
  match fuel with
  | O => i
  | S fuel' =>
      if (i <? length stored - 1) && Qle_bool (tsAt stored i) t
      then advance fuel' stored t (S i)
      else i
  end.

Definition searchFrame (stored : list StoredFrame) (t : Q) (idx : nat) : nat :=
  advance (length stored) stored t idx.

(** [stopReplay]: cancel the scheduled frame, clear the flags. *)
Definition stopReplay (st : ReplayState) : ReplayState :=
  mkState false false (replayIdx st) (replaySpeed st) (loopSpeed st)
          (lastRealTime st) (lastFrameTime st).

(** [startReplay(startIdx, speed)]: no-op on an empty buffer; otherwise the
    previous loop is cancelled and a fresh closure is scheduled. *)
Definition startReplay (stored : list StoredFrame) (startIdx : nat) (speed : Q)
    (st : ReplayState) : ReplayState :=
  match stored with
  | [] => st
  | _ => mkState true false startIdx (replaySpeed st) speed None (tsAt stored startIdx)
  end.

(** One call of the [loop] callback at animation-frame time [now]. *)
Definition replayLoop (stored : list StoredFrame) (now : Q) (st : ReplayState)
    : ReplayState :=
  if negb (isReplaying st) then st          (* no callback is scheduled *)
  else if replayPaused st then st           (* requestAnimationFrame(loop); return *)
  else
    let idx := replayIdx st in
    if length stored <=? idx then stopReplay st
    else
      let lrt := match lastRealTime st with None => now | Some t => t end in
      let realElapsed := now - lrt in
      let lft := lastFrameTime st + realElapsed * loopSpeed st in
      let nextIdx := searchFrame stored lft idx in
      mkState true false nextIdx (replaySpeed st) (loopSpeed st) (Some now) lft.

(** [toggleReplayPause]. *)
Definition toggleReplayPause (st : ReplayState) : ReplayState :=
  mkState (isReplaying st) (negb (replayPaused st)) (replayIdx st) (replaySpeed st)
          (loopSpeed st) (lastRealTime st) (lastFrameTime st).

(** [handleSeek]: only the index ref changes (the redraw is a side effect). *)
Definition handleSeek (idx : nat) (st : ReplayState) : ReplayState :=
  mkState (isReplaying st) (replayPaused st) idx (replaySpeed st)
          (loopSpeed st) (lastRealTime st) (lastFrameTime st).

(** The speed buttons:
    [setReplaySpeed(s); if (isReplaying) startReplay(replayIdxRef.current, s);] *)
Definition setSpeed (stored : list StoredFrame) (s : Q) (st : ReplayState)
    : ReplayState :=
  let st1 := mkState (isReplaying st) (replayPaused st) (replayIdx st) s
                     (loopSpeed st) (lastRealTime st) (lastFrameTime st) in
  if isReplaying st then startReplay stored (replayIdx st) s st1 else st1.

(** [onMouseDown] of the seek bar:
    [if (!isReplaying) { startReplay(0); replayPausedRef.current=true; setReplayPaused(true); }]
    ([startReplay]'s default speed is the React state [replaySpeed]). *)
Definition seekbarMouseDown (stored : list StoredFrame) (st : ReplayState) : ReplayState :=
  if isReplaying st then st
  else
    let st1 := startReplay stored 0 (replaySpeed st) st in
    mkState (isReplaying st1) true (replayIdx st1) (replaySpeed st1)
            (loopSpeed st1) (lastRealTime st1) (lastFrameTime st1).

(** Animation-frame callbacks at the given times, in order. *)
Fixpoint runTicks (stored : list StoredFrame) (times : list Q) (st : ReplayState)
    : ReplayState :=
  match times with
  | [] => st
  | t :: ts => runTicks stored ts (replayLoop stored t st)
  end.

(** A buffer of [n] frames captured every 33 ms. *)
Definition evenFrames (n : nat) : list StoredFrame :=
  map (fun k => mkFrame k (inject_Z (33 * Z.of_nat k))) (seq 0 n).

(** Whether animation-frame times are non-decreasing. *)
Fixpoint nondecreasing (l : list Q) : bool :=
  match l with
  | a :: ((b :: _) as tl) => Qle_bool a b && nondecreasing tl
  | _ => true
  end.

End Replay.

From Stdlib Require Import Reals Lra String.
Import List.

Module Scorer.
Local Open Scope R_scope.

(** JavaScript numbers are modelled as reals; comparisons as booleans. *)
Definition Rleb (x y : R) : bool := if Rle_dec x y then true else false.
Definition Rltb (x y : R) : bool := if Rlt_dec x y then true else false.
Definition Reqb (x y : R) : bool := if Req_dec_T x y then true else false.

(** [Math.round(x)] = floor(x + 0.5); [Int_part] is the floor. *)
Definition mathRound (x : R) : R := IZR (Int_part (x + /2)).

(** Per-frame record of AngleChart's [FrameAngleData]; [null] is [None]. *)
Record FrameAngleData := mkFA {
  fa_frame        : nat;
  leftElbow       : option R;
  rightElbow      : option R;
  leftShoulder    : option R;
  rightShoulder   : option R;
  hipTilt         : option R;
  spineTilt       : option R;
  monomiAngle     : option R;
  kuchiwariOffset : option R }.

(** The nine criteria, named after their labels:
    押し手（左肘）の骨法, 馬手（右肘）の収まり, 引き分けの左右均等性,
    三重十文字, 胴造り, 会の保持安定性, 引き分けの滑らかさ, 物見, 口割. *)
Inductive Criterion :=
  | Oshide | Mate | Symmetry | Sanjujumonji | Dozukuri
  | KaiStability | Smoothness | Monomi | Kuchiwari.

(** [EvalItem]; the [detail] and [ideal] fields are fixed texts of each
    criterion and are not modelled; [comment] is an English rendering. *)
Record EvalItem := mkItem { label : Criterion; score : R; comment : string }.

(** The rank strings: '—', 四〜五段相当, 三段相当, 二段相当, 初段相当,
    級位相当, 要基礎練習. *)
Inductive Rank := Unrated | Dan4to5 | Dan3 | Dan2 | Dan1 | Kyu | NeedsBasics.

Record FormEvaluation := mkEval { total : R; rank : Rank; items : list EvalItem }.

(** ── statistics helpers ── *)
Definition mean (v : list R) : R :=
  match v with
  | [] => 0
  | _ => fold_left Rplus v 0 / INR (length v)
  end.

Definition stddev (v : list R) : R :=
  if (length v <? 2)%nat then 0
  else let m := mean v in
       sqrt (fold_left (fun a b => a + (b - m) ^ 2) v 0 / INR (length v)).

Definition nn (v : list (option R)) : list R :=
  fold_right (fun x acc => match x with Some y => y :: acc | None => acc end) [] v.

Definition clamp (v lo hi : R) : R := Rmin hi (Rmax lo v).

(** [Math.max(...v)]; on an empty array it is -Infinity, never reached here
    since the only call is guarded by [v.length > 5]. *)
Definition mathMax (v : list R) : R :=
  match v with
  | [] => 0
  | x :: xs => fold_left Rmax xs x
  end.

(** JavaScript [isNaN]: a real is never NaN. *)
Definition isNaN (_ : R) : bool := false.

(** [v.slice(Math.floor(v.length * f))] for f = 0.5, 0.55 and 0.3; the
    products are exact enough in binary64 that the floor is the rational one. *)
Definition sliceHalf (v : list R) : list R := skipn (length v / 2) v.
Definition slice55 (v : list R) : list R := skipn (length v * 55 / 100) v.
Definition slice30 (v : list R) : list R := skipn (length v * 3 / 10) v.

(** ── criterion blocks of evaluateForm, in source order ── *)

Definition oshideItem (leVals : list R) : option EvalItem :=
  if (5 <? length leVals)%nat then
    let peak := mathMax leVals in
    let score :=
      if Rleb 160 peak && Rleb peak 172 then 100
      else if Rleb 150 peak && Rltb peak 160 then 60 + (peak - 150) * 4
      else if Rltb 172 peak && Rleb peak 178 then 100 - (peak - 172) * 10
      else if Rltb 178 peak then 40
      else clamp ((peak - 120) * 2) 0 60 in
    Some (mkItem Oshide (mathRound (clamp score 0 100))
      (if Rleb 160 peak && Rleb peak 172 then "ok: bow-arm elbow correctly extended"
       else if Rltb 178 peak then "bad: bow arm over-extended"
       else if Rltb 172 peak then "warn: bow arm slightly over-extended"
       else if Rleb 150 peak then "warn: bow arm slightly under-extended"
       else "bad: bow arm strongly bent"))
  else None.

Definition mateItem (reVals : list R) : option EvalItem :=
  if (5 <? length reVals)%nat then
    let late := sliceHalf reVals in
    let avg := mean late in
    let score :=
      if Rleb 80 avg && Rleb avg 110 then 100
      else if Rltb 110 avg && Rleb avg 125 then 100 - (avg - 110) * 3
      else if Rltb 125 avg then clamp (100 - (avg - 110) * 5) 0 55
      else clamp (80 + (avg - 70) * 2) 0 80 in
    Some (mkItem Mate (mathRound (clamp score 0 100))
      (if Rleb 80 avg && Rleb avg 110 then "ok: drawing elbow settled"
       else if Rltb 125 avg then "bad: drawing elbow settles in front"
       else if Rltb 110 avg then "warn: drawing elbow slightly in front"
       else "warn: check the draw"))
  else None.

Definition symmetryItem (lsVals rsVals : list R) : option EvalItem :=
  if (5 <? length lsVals)%nat && (5 <? length rsVals)%nat then
    let diff := Rabs (mean lsVals - mean rsVals) in
    let avgStab := (stddev lsVals + stddev rsVals) / 2 in
    let score := clamp (100 - diff * 3) 0 100 * 0.6 + clamp (100 - avgStab * 3) 0 100 * 0.4 in
    Some (mkItem Symmetry (mathRound (clamp score 0 100))
      (if Rleb diff 8 && Rleb avgStab 10 then "ok: symmetric draw"
       else if Rleb diff 15 then "warn: slight left/right difference"
       else "bad: large left/right difference"))
  else None.

Definition sanjuItem (hipVals : list R) : option EvalItem :=
  if (5 <? length hipVals)%nat then
    let score := clamp (100 - mean hipVals * 9) 0 100 * 0.65
               + clamp (100 - stddev hipVals * 6) 0 100 * 0.35 in
    Some (mkItem Sanjujumonji (mathRound (clamp score 0 100))
      (if Rleb (mean hipVals) 4 && Rleb (stddev hipVals) 4 then "ok: lines stable"
       else if Rleb (mean hipVals) 7 then "warn: slight tilt"
       else if Rleb (mean hipVals) 13 then "bad: visible tilt"
       else "bad: lines broken"))
  else None.

Definition dozukuriItem (spineVals : list R) : option EvalItem :=
  if (5 <? length spineVals)%nat then
    let score := clamp (100 - mean spineVals * 7) 0 100 * 0.65
               + clamp (100 - stddev spineVals * 5) 0 100 * 0.35 in
    Some (mkItem Dozukuri (mathRound (clamp score 0 100))
      (if Rleb (mean spineVals) 4 && Rleb (stddev spineVals) 5 then "ok: trunk upright"
       else if Rleb (mean spineVals) 8 then "warn: trunk leans slightly"
       else if Rleb (mean spineVals) 14 then "bad: trunk leans"
       else "bad: trunk posture broken"))
  else None.

Definition kaiItem (nframes : nat) (leVals reVals : list R) : option EvalItem :=
  let lateLE := slice55 leVals in
  let lateRE := slice55 reVals in
  if (5 <? length lateLE)%nat && (5 <? length lateRE)%nat then
    let avgStd := (stddev lateLE + stddev lateRE) / 2 in
    let kaiSec := INR nframes / 30 * 0.33 in
    let kaiBonus := if Rleb 3 kaiSec then 0 else if Rleb 1.5 kaiSec then -10 else -25 in
    let score := clamp (100 - avgStd * 5 + kaiBonus) 0 100 in
    Some (mkItem KaiStability (mathRound (clamp score 0 100))
      (if Rleb avgStd 4 && Reqb kaiBonus 0 then "ok: full kai"
       else if Reqb kaiBonus (-25) then "bad: possible early release"
       else if Rleb avgStd 9 then "warn: wobble during kai"
       else "bad: kai unstable"))
  else None.

(** [leVals.slice(1).map((v,i) => Math.abs(v - leVals[i]))] *)
Definition deltas (leVals : list R) : list R :=
  map (fun p => Rabs (fst p - snd p)) (combine (tl leVals) leVals).

Definition smoothnessItem (leVals : list R) : option EvalItem :=
  if (10 <? length leVals)%nat then
    let d := deltas leVals in
    let score := clamp (100 - stddev d * 18 - Rmax 0 (mean d - 1.5) * 10) 0 100 in
    Some (mkItem Smoothness (mathRound (clamp score 0 100))
      (if Rleb 82 score then "ok: smooth even draw"
       else if Rleb 62 score then "warn: draw slightly catches"
       else "bad: check for grabbing or stalling"))
  else None.

Definition monomiItem (monomiVals : list R) : option EvalItem :=
  if (5 <? length monomiVals)%nat then
    let late := slice30 monomiVals in
    let avg := mean late in
    let std := stddev late in
    if negb (isNaN avg) && negb (isNaN std) then
      let aScore :=
        if Rleb 35 avg && Rleb avg 55 then 100
        else if Rleb 25 avg && Rltb avg 35 then 60 + (avg - 25) * 4
        else if Rltb 55 avg && Rleb avg 68 then 100 - (avg - 55) * 4
        else if Rltb avg 25 then clamp (avg * 2.4) 0 60
        else clamp (100 - (avg - 55) * 6) 0 60 in
      let score := aScore * 0.65 + clamp (100 - std * 5) 0 100 * 0.35 in
      Some (mkItem Monomi (mathRound (clamp score 0 100))
        (if Rleb 35 avg && Rleb avg 55 && Rleb std 6 then "ok: head turn correct and stable"
         else if Rltb avg 25 then "bad: head turn too shallow"
         else if Rltb avg 35 then "warn: head turn slightly shallow"
         else if Rltb 68 avg then "warn: head turn too deep"
         else if Rltb 10 std then "warn: head turn wobbles"
         else "warn: check head turn"))
    else None
  else None.

Definition kuchiwariItem (kVals : list R) : option EvalItem :=
  if (5 <? length kVals)%nat then
    let late := sliceHalf kVals in
    let avg := mean late in
    let std := stddev late in
    if negb (isNaN avg) && negb (isNaN std) then
      let pScore :=
        if Rleb (-0.01) avg && Rleb avg 0.03 then 100
        else if Rltb 0.03 avg && Rleb avg 0.07 then 100 - (avg - 0.03) * 1000
        else if Rltb avg (-0.01) && Rleb (-0.05) avg then 100 + (avg + 0.01) * 1000
        else clamp (50 - Rabs avg * 500) 0 50 in
      let score := pScore * 0.7 + clamp (100 - std * 1000) 0 100 * 0.3 in
      Some (mkItem Kuchiwari (mathRound (clamp score 0 100))
        (if Rleb (-0.01) avg && Rleb avg 0.03 && Rleb std 0.02 then "ok: anchor height correct"
         else if Rltb 0.05 avg then "bad: anchor too low"
         else if Rltb 0.03 avg then "warn: anchor slightly low"
         else if Rltb avg (-0.05) then "bad: anchor too high"
         else if Rltb avg (-0.01) then "warn: anchor slightly high"
         else if Rltb 0.02 std then "warn: anchor wobbles"
         else "warn: check anchor"))
    else None
  else None.

(** [items.push] of each block, in order. *)
Definition pushSome (o : option EvalItem) (acc : list EvalItem) : list EvalItem :=
  match o with Some it => it :: acc | None => acc end.

Definition evalItems (frames : list FrameAngleData) : list EvalItem :=
  let leVals := nn (map leftElbow frames) in
  let reVals := nn (map rightElbow frames) in
  let lsVals := nn (map leftShoulder frames) in
  let rsVals := nn (map rightShoulder frames) in
  let hipVals := nn (map hipTilt frames) in
  let spineVals := nn (map spineTilt frames) in
  let monomiVals := nn (map monomiAngle frames) in
  let kVals := nn (map kuchiwariOffset frames) in
  fold_right pushSome []
    [oshideItem leVals; mateItem reVals; symmetryItem lsVals rsVals;
     sanjuItem hipVals; dozukuriItem spineVals;
     kaiItem (length frames) leVals reVals; smoothnessItem leVals;
     monomiItem monomiVals; kuchiwariItem kVals].

Definition rankOf (t : R) : Rank :=
  if Rleb 90 t then Dan4to5
  else if Rleb 78 t then Dan3
  else if Rleb 65 t then Dan2
  else if Rleb 52 t then Dan1
  else if Rleb 38 t then Kyu
  else NeedsBasics.

Definition sumScores (its : list EvalItem) : R :=
  fold_left (fun a b => a + score b) its 0.

Definition evaluateForm (frames : list FrameAngleData) : FormEvaluation :=
  match frames with
  | [] => mkEval 0 Unrated []
  | _ =>
    let its := evalItems frames in
    match its with
    | [] => mkEval 0 Unrated []
    | _ =>
      let t := mathRound (sumScores its / INR (length its)) in
      mkEval t (rankOf t) its
    end
  end.

(** The condition under which each criterion's block pushes an item, read
    off the guards of [evaluateForm]: the number of non-null values of the
    metric(s) it uses, or, for the hold phase, the number of values left after
    dropping the first [floor(0.55 n)] of [n]. *)
Definition validCount (f : FrameAngleData -> option R) (frames : list FrameAngleData) : nat :=
  length (nn (map f frames)).

Definition critEnabled (c : Criterion) (frames : list FrameAngleData) : bool :=
  let nLE := validCount leftElbow frames in
  let nRE := validCount rightElbow frames in
  match c with
  | Oshide => 5 <? nLE
  | Mate => 5 <? nRE
  | Symmetry => (5 <? validCount leftShoulder frames) && (5 <? validCount rightShoulder frames)
  | Sanjujumonji => 5 <? validCount hipTilt frames
  | Dozukuri => 5 <? validCount spineTilt frames
  | KaiStability => (5 <? nLE - nLE * 55 / 100) && (5 <? nRE - nRE * 55 / 100)
  | Smoothness => 10 <? nLE
  | Monomi => 5 <? validCount monomiAngle frames
  | Kuchiwari => 5 <? validCount kuchiwariOffset frames
  end%nat.

Definition allCriteria : list Criterion :=
  [Oshide; Mate; Symmetry; Sanjujumonji; Dozukuri; KaiStability; Smoothness; Monomi; Kuchiwari].

(** The criteria whose guard holds, in report order. *)
Definition enabledCriteria (frames : list FrameAngleData) : list Criterion :=
  filter (fun c => critEnabled c frames) allCriteria.

End Scorer.

Module Geometry.
Local Open Scope R_scope.

(** A landmark; only the planar coordinates are used. *)
Record Point := mkPt { x : R; y : R }.

(** [Math.atan2(y, x)] as ECMAScript specifies it, on reals (a zero
    difference of two equal numbers is +0 in JavaScript). *)
Definition atan2 (y x : R) : R :=
  if Rlt_dec 0 x then atan (y / x)
  else if Rlt_dec x 0 then
    (if Rle_dec 0 y then atan (y / x) + PI else atan (y / x) - PI)
  else if Rlt_dec 0 y then PI / 2
  else if Rlt_dec y 0 then - (PI / 2)
  else 0.

(** [calcAngle(a, b, c)]: the angle at vertex [b], in degrees. *)
Definition calcAngle (a b c : Point) : R :=
  let abx := x a - x b in
  let aby := y a - y b in
  let cbx := x c - x b in
  let cby := y c - y b in
  let dot := abx * cbx + aby * cby in
  let mag := sqrt (abx ^ 2 + aby ^ 2) * sqrt (cbx ^ 2 + cby ^ 2) in
  if Req_dec_T mag 0 then 0
  else acos (Rmax (-1) (Rmin 1 (dot / mag))) * (180 / PI).

Definition translate (t : Point) (p : Point) : Point :=
  mkPt (x p + x t) (y p + y t).

(** [AngleData] returned by [calcKyudoAngles]. *)
Record AngleData := mkAngles {
  ad_leftElbow : option R; ad_rightElbow : option R;
  ad_leftShoulder : option R; ad_rightShoulder : option R;
  ad_hipTilt : option R; ad_spineTilt : option R;
  ad_monomiAngle : option R; ad_kuchiwariOffset : option R }.

(** [landmarks[i]]: [undefined] past the end of the array. *)
Definition lm (landmarks : list Point) (i : nat) : option Point :=
  nth_error landmarks i.

(** The head-rotation block of [calcKyudoAngles]. *)
Definition monomiOf (lEar rEar lShoulder rShoulder : Point) : R :=
  let shoulderAngleRad := atan2 (y rShoulder - y lShoulder) (x rShoulder - x lShoulder) in
  let earAngleRad := atan2 (y rEar - y lEar) (x rEar - x lEar) in
  let diff0 := (earAngleRad - shoulderAngleRad) * (180 / PI) in
  let diff1 := if Rlt_dec 180 diff0 then diff0 - 360 else diff0 in
  let diff2 := if Rlt_dec diff1 (-180) then diff1 + 360 else diff1 in
  diff2.

Definition calcKyudoAngles (landmarks : list Point) : AngleData :=
  let nose := lm landmarks 0 in
  let lEar := lm landmarks 7 in
  let rEar := lm landmarks 8 in
  let lShoulder := lm landmarks 11 in
  let rShoulder := lm landmarks 12 in
  let lElbow := lm landmarks 13 in
  let rElbow := lm landmarks 14 in
  let lWrist := lm landmarks 15 in
  let rWrist := lm landmarks 16 in
  let lHip := lm landmarks 23 in
  let rHip := lm landmarks 24 in
  let leftElbow :=
    match lShoulder, lElbow, lWrist with
    | Some s, Some e, Some w => Some (calcAngle s e w) | _, _, _ => None end in
  let rightElbow :=
    match rShoulder, rElbow, rWrist with
    | Some s, Some e, Some w => Some (calcAngle s e w) | _, _, _ => None end in
  let leftShoulder :=
    match lElbow, lShoulder, rShoulder with
    | Some e, Some ls, Some rs => Some (calcAngle e ls rs) | _, _, _ => None end in
  let rightShoulder :=
    match lShoulder, rShoulder, rElbow with
    | Some ls, Some rs, Some e => Some (calcAngle ls rs e) | _, _, _ => None end in
  let hipTilt :=
    match lHip, rHip with
    | Some lh, Some rh => Some (Rabs (atan2 (y rh - y lh) (x rh - x lh) * (180 / PI)))
    | _, _ => None end in
  let spineTilt :=
    match lShoulder, rShoulder, lHip, rHip with
    | Some ls, Some rs, Some lh, Some rh =>
        let sMidx := (x ls + x rs) / 2 in let sMidy := (y ls + y rs) / 2 in
        let hMidx := (x lh + x rh) / 2 in let hMidy := (y lh + y rh) / 2 in
        Some (Rabs (atan2 (sMidx - hMidx) (hMidy - sMidy) * (180 / PI)))
    | _, _, _, _ => None end in
  let monomiAngle :=
    match lEar, rEar, lShoulder, rShoulder with
    | Some le, Some re, Some ls, Some rs => Some (monomiOf le re ls rs)
    | _, _, _, _ => None end in
  let kuchiwariOffset :=
    match nose, rWrist, lEar, rEar with
    | Some n, Some rw, Some le, Some re =>
        let earMidY := (y le + y re) / 2 in
        let estimatedMouthY := y n + (earMidY - y n) * 0.55 in
        Some (y rw - estimatedMouthY)
    | _, _, _, _ => None end in
  mkAngles leftElbow rightElbow leftShoulder rightShoulder hipTilt spineTilt
           monomiAngle kuchiwariOffset.

End Geometry.

(** ** Pose capture: the [pose.onResults] callback of VideoAnalyzer.tsx *)
Module Capture.
Import Replay Scorer Geometry.

(** An element of [storedFramesRef.current]: [{frame, timeMs, landmarks}]. *)
Record CapturedFrame := mkCaptured {
  cf_frame : nat; cf_timeMs : Q; cf_landmarks : list Point }.

(** The refs and React state written by [onResults]: [frameRef.current],
    [storedFramesRef.current], [frameAngles] and [displayCount]. *)
Record CaptureState := mkCapture {
  frameRef : nat;
  storedFrames : list CapturedFrame;
  frameAngles : list FrameAngleData;
  displayCount : nat }.

(** The reset at the start of the set-up effect:
    [frameRef.current=0; storedFramesRef.current=[]; setFrameAngles([]); setDisplayCount(0)]. *)
Definition resetCapture : CaptureState := mkCapture 0 [] [] 0.

(** [{ frame:current, ...angles }] *)
Definition toFrameAngle (current : nat) (a : AngleData) : FrameAngleData :=
  mkFA current (ad_leftElbow a) (ad_rightElbow a) (ad_leftShoulder a)
       (ad_rightShoulder a) (ad_hipTilt a) (ad_spineTilt a)
       (ad_monomiAngle a) (ad_kuchiwariOffset a).

(** [pose.onResults]: [results.poseLandmarks] ([None] when absent; an empty
    array is truthy and is recorded) and [video.currentTime] in seconds.
    The drawing is a side effect on the canvas and is not part of the state;
    the functional update [setFrameAngles(p => [...p, ...])] appends. *)
Definition onResults (poseLandmarks : option (list Point)) (currentTime : Q)
    (st : CaptureState) : CaptureState :=
  match poseLandmarks with
  | None => st
  | Some lms =>
      let angles := calcKyudoAngles lms in
      let current := frameRef st in
      let frameRef' := S current in
      mkCapture frameRef'
        (storedFrames st ++ [mkCaptured current (currentTime * 1000)%Q lms])
        (frameAngles st ++ [toFrameAngle current angles])
        frameRef'
  end.

(** A sequence of [onResults] calls, in order. *)
Fixpoint runResults (rs : list (option (list Point) * Q)) (st : CaptureState)
    : CaptureState :=
  match rs with
  | [] => st
  | (p, t) :: rs' => runResults rs' (onResults p t st)
  end.

(** The results that carry landmarks, with their video times. *)
Fixpoint detections (rs : list (option (list Point) * Q)) : list (list Point * Q) :=
  match rs with
  | [] => []
  | (Some l, t) :: rs' => (l, t) :: detections rs'
  | (None, _) :: rs' => detections rs'
  end.

(** The angle-series entry of a stored frame. *)
Definition angleOf (cf : CapturedFrame) : FrameAngleData :=
  toFrameAngle (cf_frame cf) (calcKyudoAngles (cf_landmarks cf)).

(** [status] of the analyser. *)
Inductive Status := Loading | Playing | Done | Error.

(** The evaluation effect:
    [if (status==='done' && frameAngles.length>0) { setEvaluation(evaluateForm(frameAngles));
     setTotalFrames(storedFramesRef.current.length); }];
    [Some (evaluation, totalFrames)] when it fires. *)
Definition evaluationEffect (status : Status) (st : CaptureState)
    : option (FormEvaluation * nat) :=
  match status, frameAngles st with
  | Done, _ :: _ => Some (evaluateForm (frameAngles st), length (storedFrames st))
  | _, _ => None
  end.

End Capture.

(** ** [drawPoseOverlay] of PoseOverlay.tsx as the list of drawing operations
    it issues on the canvas, in order. *)
Module Overlay.
Import Geometry.
Local Open Scope R_scope.

(** [drawConnectors] and [drawLandmarks] with their styles; a filled and
    stroked full circle; a stroked segment with its dash pattern; a text. *)
Inductive DrawOp :=
  | Connectors (color : string) (lineWidth : R)
  | LandmarkDots (color : string) (lineWidth radius : R)
  | Circle (cx cy radius : R) (fill stroke : string) (lineWidth : R)
  | Line (x1 y1 x2 y2 : R) (stroke : string) (lineWidth : R) (dash : list R)
  | Text (s : string) (px py : R) (fill : string).

Definition highlighted : list nat := [0; 7; 8; 11; 12; 13; 14; 15; 16; 23; 24]%nat.

(** One iteration of the highlight loop: [if (!lm) continue;] otherwise a
    circle of radius 6 at the landmark's pixel position. *)
Definition highlightOps (landmarks : list Point) (canvasWidth canvasHeight : R)
    (idx : nat) : list DrawOp :=
  match lm landmarks idx with
  | None => []
  | Some p =>
      [Circle (x p * canvasWidth) (y p * canvasHeight) 6
              "rgba(255, 220, 50, 0.88)" "#fff" 1.5]
  end.

Definition drawPoseOverlay (landmarks : list Point) (canvasWidth canvasHeight : R)
    : list DrawOp :=
  [Connectors "rgba(0, 255, 180, 0.85)" 2; LandmarkDots "#FF4060" 1 4] ++
  flat_map (highlightOps landmarks canvasWidth canvasHeight) highlighted ++
  (match lm landmarks 7, lm landmarks 8 with
   | Some lEar, Some rEar =>
       [Line (x lEar * canvasWidth) (y lEar * canvasHeight)
             (x rEar * canvasWidth) (y rEar * canvasHeight) "#38bdf8" 2 [];
        Text "物見" (x rEar * canvasWidth + 6) (y rEar * canvasHeight - 4) "#38bdf8"]
   | _, _ => []
   end) ++
  (match lm landmarks 16, lm landmarks 0 with
   | Some rWrist, Some nose =>
       let mouthY := (y nose + (y nose + 0.06)) / 2 in
       let wristY := y rWrist * canvasHeight in
       [Line 0 wristY canvasWidth wristY
             (if Rlt_dec (y rWrist) (mouthY + 0.02) then "#f97316" else "#a3e635")
             1.5 [4; 4];
        Text "口割" (x rWrist * canvasWidth + 8) (wristY - 4) "#f97316"]
   | _, _ => []
   end).

End Overlay.

(** * Concrete inputs used by the properties below *)
Module Samples.
Import Scorer Geometry.
Local Open Scope R_scope.

(** Six frames in which every metric is available. *)
Definition fullFrame (k : nat) : FrameAngleData :=
  mkFA k (Some 165) (Some 95) (Some 90) (Some 90) (Some 2) (Some 2) (Some 45) (Some 0).

Definition sixFullFrames : list FrameAngleData := map fullFrame (seq 0 6).

(** Three frames with no metric available. *)
Definition threeEmptyFrames : list FrameAngleData :=
  map (fun k => mkFA k None None None None None None None None) (seq 0 3).

(** Six frames with only the left-elbow angle available. *)
Definition sixElbowFrames : list FrameAngleData :=
  map (fun k => mkFA k (Some 0) None None None None None None None) (seq 0 6).

(** Ears along +x, shoulders along -x: the two lines point in opposite
    directions. *)
Definition origin : Point := mkPt 0 0.

Definition halfTurnLandmarks : list Point :=
  [origin; origin; origin; origin; origin; origin; origin;
   mkPt 0 0; mkPt 1 0;          (* 7: left ear, 8: right ear *)
   origin; origin;
   mkPt 1 0; mkPt 0 0].         (* 11: left shoulder, 12: right shoulder *)

End Samples.

(** * Replay scheduler: properties *)
Module ReplayFacts.
Import Replay.
Local Open Scope Q_scope.

(** The frame search never moves the index backward. *)
Lemma advance_ge (stored : list StoredFrame) (t : Q) :
  forall fuel i, (i <= advance fuel stored t i)%nat.
Proof.
  induction fuel as [|fuel IH]; intros i; simpl; [lia|].
  destruct ((i <? length stored - 1)%nat && Qle_bool (tsAt stored i) t); [|lia].
  specialize (IH (S i)); lia.
Qed.

(** The frame search stays put at the last stored frame. *)
Lemma advance_at_last (stored : list StoredFrame) (t : Q) :
  forall fuel, advance fuel stored t (length stored - 1) = (length stored - 1)%nat.
Proof.
  intros [|fuel]; simpl; [reflexivity|].
  rewrite Nat.ltb_irrefl; reflexivity.
Qed.

(** A search step whose guard holds moves the index at least one forward. *)
Lemma advance_step (stored : list StoredFrame) (t : Q) (fuel i : nat) :
  (i <? length stored - 1)%nat = true ->
  Qle_bool (tsAt stored i) t = true ->
  (S i <= advance (S fuel) stored t i)%nat.
Proof.
  intros H1 H2; simpl; rewrite H1, H2; simpl; apply advance_ge.
Qed.

(** Ticks delivered while paused change nothing, [lastRealTime] included. *)
Lemma paused_ticks_noop (stored : list StoredFrame) :
  forall times st, replayPaused st = true -> runTicks stored times st = st.
Proof.
  induction times as [|t ts IH]; intros st Hp; simpl; [reflexivity|].
  unfold replayLoop; rewrite Hp; destruct (isReplaying st); simpl; apply IH; exact Hp.
Qed.

(** ** C1
    Replay over eleven frames captured every 33 ms, started at index 0 at
    speed 1, with ticks at 0 and 16 ms: the index is 1.  The replay is then
    paused, ticks arrive at 1000 and 2000 ms, and it is resumed; the single
    tick at 2016 ms moves the index to the last frame, 10, because the
    elapsed time since the tick at 16 ms (2000 ms, nearly all of it paused) is
    added to the virtual timestamp.  The same tick without the pause (at
    32 ms, the same 16 ms of playing time) leaves the index at 1. *)
Theorem pause_resume_catches_up :
  let stored := evenFrames 11 in
  let s1 := runTicks stored [0; 16] (startReplay stored 0 1 initialState) in
  let s2 := toggleReplayPause (runTicks stored [1000; 2000] (toggleReplayPause s1)) in
  replayIdx s1 = 1%nat /\
  replayIdx (replayLoop stored 2016 s2) = 10%nat /\
  replayIdx (replayLoop stored 32 s1) = 1%nat.
Proof. vm_compute. repeat split. Qed.

(** ** C2
    Once an unpaused replay reaches the last stored frame, each further tick
    keeps the loop scheduled on that frame: the guard [idx >= stored.length]
    that calls [stopReplay] is never reached, since the search caps the index
    at [stored.length - 1]. *)
Theorem last_frame_loop_keeps_running (stored : list StoredFrame)
    (st : ReplayState) (now : Q) :
  stored <> [] ->
  isReplaying st = true ->
  replayPaused st = false ->
  replayIdx st = (length stored - 1)%nat ->
  isReplaying (replayLoop stored now st) = true /\
  replayIdx (replayLoop stored now st) = (length stored - 1)%nat.
Proof.
  intros Hne Hr Hp Hi.
  unfold replayLoop; rewrite Hr, Hp, Hi; simpl.
  assert (Hlt : (length stored - 1 < length stored)%nat)
    by (destruct stored; [congruence | simpl; lia]).
  apply Nat.leb_gt in Hlt; rewrite Hlt; simpl.
  split; [reflexivity|]. unfold searchFrame. apply advance_at_last.
Qed.

Lemma last_frame_loop_keeps_running_witness :
  let stored := evenFrames 2 in
  let st := runTicks stored [0; 100] (startReplay stored 0 1 initialState) in
  replayIdx st = 1%nat /\
  isReplaying (replayLoop stored 200 st) = true /\
  replayIdx (replayLoop stored 200 st) = 1%nat.
Proof.
  split; [vm_compute; reflexivity|].
  apply (last_frame_loop_keeps_running (evenFrames 2)
           (runTicks (evenFrames 2) [0; 100] (startReplay (evenFrames 2) 0 1 initialState)) 200).
  - discriminate.
  - vm_compute; reflexivity.
  - vm_compute; reflexivity.
  - vm_compute; reflexivity.
Defined.

(** ** C4
    Frames at 0, 33 and 66 ms, replay started at index 0 at speed 1: the first
    tick sets the virtual timestamp to 0, where frame 0 (at 0 ms) is the
    nearest frame not exceeding it and the next frame (33 ms) lies beyond it;
    the loop still moves to index 1, because it tests the current frame's
    timestamp, not the next one's. *)
Theorem first_tick_overshoots_virtual_time :
  let stored := evenFrames 3 in
  let s := replayLoop stored 0 (startReplay stored 0 1 initialState) in
  lastFrameTime s == 0 /\
  tsAt stored 0 <= lastFrameTime s /\
  lastFrameTime s < tsAt stored 1 /\
  replayIdx s = 1%nat.
Proof. vm_compute. repeat split; discriminate. Qed.

(** ** C9
    Pressing a speed button while a replay is active and paused restarts the
    loop at the current index with the new speed and the paused flag cleared;
    the next tick then moves the index forward (unless it is the last frame). *)
Theorem setSpeed_while_paused_resumes (stored : list StoredFrame) (s : Q)
    (st : ReplayState) (now : Q) :
  stored <> [] ->
  isReplaying st = true ->
  replayPaused st = true ->
  (replayIdx st < length stored - 1)%nat ->
  let st' := setSpeed stored s st in
  isReplaying st' = true /\ replayPaused st' = false /\
  replayIdx st' = replayIdx st /\ loopSpeed st' = s /\
  (replayIdx st < replayIdx (replayLoop stored now st'))%nat.
Proof.
  intros Hne Hr Hp Hi st'.
  assert (Hst' : st' = mkState true false (replayIdx st) s s None (tsAt stored (replayIdx st))).
  { subst st'; unfold setSpeed; rewrite Hr; destruct stored; [congruence|reflexivity]. }
  rewrite Hst'; simpl. repeat split.
  unfold replayLoop; simpl.
  assert (Hlt : (replayIdx st < length stored)%nat) by lia.
  apply Nat.leb_gt in Hlt; rewrite Hlt.
  simpl; unfold searchFrame.
  destruct (length stored) as [|n] eqn:Hlen; [lia|].
  apply (advance_step stored).
  - apply Nat.ltb_lt; rewrite Hlen; exact Hi.
  - apply Qle_bool_iff.
    setoid_replace (tsAt stored (replayIdx st) + (now - now) * s)
      with (tsAt stored (replayIdx st)) by ring.
    apply Qle_refl.
Qed.

Lemma setSpeed_while_paused_resumes_witness :
  let stored := evenFrames 3 in
  let st := toggleReplayPause (startReplay stored 0 1 initialState) in
  isReplaying st = true /\ replayPaused st = true /\
  isReplaying (setSpeed stored 2 st) = true /\
  replayPaused (setSpeed stored 2 st) = false /\
  replayIdx (setSpeed stored 2 st) = replayIdx st /\
  loopSpeed (setSpeed stored 2 st) = 2 /\
  (replayIdx st < replayIdx (replayLoop stored 50 (setSpeed stored 2 st)))%nat.
Proof.
  split; [reflexivity|]. split; [reflexivity|].
  apply (setSpeed_while_paused_resumes (evenFrames 3) 2
           (toggleReplayPause (startReplay (evenFrames 3) 0 1 initialState)) 50).
  - discriminate.
  - reflexivity.
  - reflexivity.
  - vm_compute; lia.
Defined.

(** ** Further properties of the frame search and of the tick loop *)

Lemma advance_Qeq (stored : list StoredFrame) (t t' : Q) :
  t == t' -> forall fuel i, advance fuel stored t i = advance fuel stored t' i.
Proof.
  intros Ht fuel; induction fuel as [|fuel IH]; intros i; simpl; [reflexivity|].
  assert (E : Qle_bool (tsAt stored i) t = Qle_bool (tsAt stored i) t').
  { destruct (Qle_bool (tsAt stored i) t) eqn:E1, (Qle_bool (tsAt stored i) t') eqn:E2;
      try reflexivity.
    - apply Qle_bool_iff in E1. rewrite Ht in E1. apply Qle_bool_iff in E1. congruence.
    - apply Qle_bool_iff in E2. rewrite <- Ht in E2. apply Qle_bool_iff in E2. congruence. }
  rewrite E. destruct (_ && _); [apply IH | reflexivity].
Qed.

Lemma advance_fuel (stored : list StoredFrame) (t : Q) :
  forall fuel i, (length stored - 1 - i <= fuel)%nat ->
  advance (S fuel) stored t i = advance fuel stored t i.
Proof.
  induction fuel as [|fuel IH]; intros i Hf.
  - cbn [advance]. assert (E : (i <? length stored - 1)%nat = false)
      by (apply Nat.ltb_ge; lia).
    rewrite E; reflexivity.
  - cbn [advance] in *.
    destruct (i <? length stored - 1)%nat eqn:E1; simpl; [|reflexivity].
    destruct (Qle_bool (tsAt stored i) t); [|reflexivity].
    apply Nat.ltb_lt in E1. apply IH; lia.
Qed.

Lemma advance_spec (stored : list StoredFrame) (t : Q) :
  forall fuel i, (i <= length stored - 1)%nat -> (length stored - 1 - i <= fuel)%nat ->
  let r := advance fuel stored t i in
  (i <= r <= length stored - 1)%nat /\
  (forall j, (i <= j < r)%nat -> tsAt stored j <= t) /\
  (r = (length stored - 1)%nat \/ t < tsAt stored r).
Proof.
  induction fuel as [|fuel IH]; intros i Hi Hf r.
  - subst r; simpl. assert (i = length stored - 1)%nat by lia.
    split; [lia|]. split; [intros; lia | left; assumption].
  - subst r; cbn [advance].
    destruct (i <? length stored - 1)%nat eqn:E1; simpl.
    + apply Nat.ltb_lt in E1.
      destruct (Qle_bool (tsAt stored i) t) eqn:E2.
      * apply Qle_bool_iff in E2.
        destruct (IH (S i) ltac:(lia) ltac:(lia)) as [B [P L]].
        split; [lia|]. split; [|exact L].
        intros j Hj. destruct (Nat.eq_dec j i) as [->|Hne]; [exact E2|].
        apply P; lia.
      * split; [lia|]. split; [intros; lia|]. right.
        apply Qnot_le_lt. intros H. apply Qle_bool_iff in H. congruence.
    + apply Nat.ltb_ge in E1. split; [lia|]. split; [intros; lia|]. left; lia.
Qed.

Lemma search_step (stored : list StoredFrame) (t : Q) (k : nat) :
  (k < length stored - 1)%nat -> tsAt stored k <= t ->
  searchFrame stored t k = searchFrame stored t (S k).
Proof.
  intros Hk Ht. unfold searchFrame.
  assert (Hn : length stored = S (length stored - 1)) by lia.
  rewrite Hn at 1. cbn [advance].
  assert (E1 : (k <? length stored - 1)%nat = true) by (apply Nat.ltb_lt; exact Hk).
  apply Qle_bool_iff in Ht. rewrite E1, Ht; simpl.
  rewrite Hn at 2. rewrite advance_fuel by lia. reflexivity.
Qed.

Lemma search_skip (stored : list StoredFrame) (t : Q) :
  forall d k, (k + d <= length stored - 1)%nat ->
  (forall j, (k <= j < k + d)%nat -> tsAt stored j <= t) ->
  searchFrame stored t k = searchFrame stored t (k + d).
Proof.
  induction d as [|d IH]; intros k Hd Hp; [rewrite Nat.add_0_r; reflexivity|].
  rewrite search_step by (try apply Hp; lia).
  replace (k + S d)%nat with (S k + d)%nat by lia.
  apply IH; [lia|]. intros j Hj; apply Hp; lia.
Qed.

Lemma search_spec (stored : list StoredFrame) (t : Q) (k : nat) :
  (k < length stored)%nat ->
  let r := searchFrame stored t k in
  (k <= r <= length stored - 1)%nat /\
  (forall j, (k <= j < r)%nat -> tsAt stored j <= t) /\
  (r = (length stored - 1)%nat \/ t < tsAt stored r).
Proof. intros Hk; apply advance_spec; lia. Qed.

Lemma last_cons_default {A : Type} (l : list A) :
  forall (a d : A), last (a :: l) d = last l a.
Proof.
  induction l as [|b l IH]; intros a d; [reflexivity|].
  change (last (b :: l) d = last (b :: l) a). rewrite !IH. reflexivity.
Qed.

Lemma ticks_invariant (stored : list StoredFrame) (k : nat) (s t0 : Q) (rs b : Q) :
  (k < length stored)%nat -> 0 <= s ->
  forall ts tl v,
  nondecreasing (tl :: ts) = true ->
  v == b + s * (tl - t0) ->
  exists v',
    runTicks stored ts (mkState true false (searchFrame stored v k) rs s (Some tl) v)
    = mkState true false (searchFrame stored v' k) rs s (Some (last ts tl)) v' /\
    v' == b + s * (last ts tl - t0).
Proof.
  intros Hk Hs ts; induction ts as [|t ts IH]; intros tl v Hnd Hv.
  - exists v; split; [reflexivity | exact Hv].
  - cbn [nondecreasing] in Hnd. apply andb_prop in Hnd as [Hle Hnd].
    apply Qle_bool_iff in Hle.
    destruct (search_spec stored v k Hk) as [[B1 B2] [P _]].
    cbn [runTicks]. unfold replayLoop; cbn [isReplaying replayPaused replayIdx negb
      lastRealTime lastFrameTime loopSpeed replaySpeed].
    assert (E : (length stored <=? searchFrame stored v k)%nat = false)
      by (apply Nat.leb_gt; lia).
    rewrite E. cbv zeta.
    set (lft := v + (t - tl) * s).
    assert (Hvl : v <= lft).
    { subst lft. assert (0 <= (t - tl) * s).
      { apply Qmult_le_0_compat; [|exact Hs].
        apply (Qplus_le_l _ _ tl). ring_simplify. exact Hle. }
      apply (Qplus_le_l _ _ (- v)). ring_simplify. ring_simplify in H. exact H. }
    assert (Hsk : searchFrame stored lft (searchFrame stored v k) = searchFrame stored lft k).
    { replace (searchFrame stored v k) with (k + (searchFrame stored v k - k))%nat at 1 by lia.
      symmetry. apply search_skip; [lia|].
      intros j Hj. apply (Qle_trans _ v); [apply P; lia | exact Hvl]. }
    rewrite Hsk.
    assert (Hc : last (t :: ts) tl = last ts t) by apply last_cons_default.
    rewrite Hc.
    apply IH; [exact Hnd|].
    subst lft. rewrite Hv. ring.
Qed.

Lemma start_then_ticks (stored : list StoredFrame) (k : nat) (s : Q)
    (st : ReplayState) (t0 : Q) (ts : list Q) :
  (k < length stored)%nat -> 0 <= s -> nondecreasing (t0 :: ts) = true ->
  exists v',
    runTicks stored (t0 :: ts) (startReplay stored k s st)
    = mkState true false (searchFrame stored v' k) (replaySpeed st) s (Some (last ts t0)) v' /\
    v' == tsAt stored k + s * (last ts t0 - t0).
Proof.
  intros Hk Hs Hnd.
  assert (Hst : startReplay stored k s st =
                mkState true false k (replaySpeed st) s None (tsAt stored k))
    by (destruct stored; [simpl in Hk; lia | reflexivity]).
  rewrite Hst. cbn [runTicks]. unfold replayLoop; cbn [isReplaying replayPaused
    replayIdx negb lastRealTime lastFrameTime loopSpeed replaySpeed].
  assert (E : (length stored <=? k)%nat = false) by (apply Nat.leb_gt; lia).
  rewrite E; cbv zeta.
  exact (ticks_invariant stored k s t0 (replaySpeed st) (tsAt stored k) Hk Hs ts t0
           (tsAt stored k + (t0 - t0) * s) Hnd ltac:(ring)).
Qed.

Lemma search_unique (stored : list StoredFrame) (t : Q) (k r1 r2 : nat) :
  (k <= r1 <= length stored - 1)%nat ->
  (forall j, (k <= j < r1)%nat -> tsAt stored j <= t) ->
  (r1 = (length stored - 1)%nat \/ t < tsAt stored r1) ->
  (k <= r2 <= length stored - 1)%nat ->
  (forall j, (k <= j < r2)%nat -> tsAt stored j <= t) ->
  (r2 = (length stored - 1)%nat \/ t < tsAt stored r2) ->
  r1 = r2.
Proof.
  intros B1 P1 L1 B2 P2 L2.
  destruct (Nat.lt_trichotomy r1 r2) as [H|[H|H]]; [|exact H|].
  - exfalso. destruct L1 as [L1|L1]; [lia|].
    pose proof (P2 r1 ltac:(lia)). apply (Qlt_not_le _ _ L1). assumption.
  - exfalso. destruct L2 as [L2|L2]; [lia|].
    pose proof (P1 r2 ltac:(lia)). apply (Qlt_not_le _ _ L2). assumption.
Qed.

Lemma tsAt_evenFrames (n j : nat) :
  (j < n)%nat -> tsAt (evenFrames n) j = inject_Z (33 * Z.of_nat j).
Proof.
  intros Hj. unfold tsAt, evenFrames.
  rewrite nth_error_map, nth_error_seq.
  destruct (Nat.ltb_spec j n); [|lia]. reflexivity.
Qed.

Lemma length_evenFrames (n : nat) : length (evenFrames n) = n.
Proof. unfold evenFrames; rewrite length_map, length_seq; reflexivity. Qed.

(** On frames 33 ms apart, the search from index 0 for a virtual time
    [v >= 0] gives [min (n-1) (floor (v/33) + 1)]. *)
Lemma search_evenFrames (n : nat) (v : Q) :
  (0 < n)%nat -> 0 <= v ->
  searchFrame (evenFrames n) v 0 = Nat.min (n - 1) (Z.to_nat (Qfloor (v / 33)) + 1).
Proof.
  intros Hn Hv.
  set (f := Qfloor (v / 33)).
  assert (Hf0 : (0 <= f)%Z).
  { subst f. assert (H0 : 0 <= v / 33).
    { apply Qle_shift_div_l; [reflexivity|]. rewrite Qmult_0_l. exact Hv. }
    pose proof (Qfloor_resp_le 0 (v / 33) H0) as H. simpl in H. exact H. }
  assert (Hfl : inject_Z f <= v / 33) by apply Qfloor_le.
  assert (Hfu : v / 33 < inject_Z (f + 1)) by apply Qlt_floor.
  assert (Hlen : length (evenFrames n) = n) by apply length_evenFrames.
  destruct (search_spec (evenFrames n) v 0 ltac:(lia)) as [B [P L]].
  rewrite Hlen in B, L.
  symmetry. apply (search_unique (evenFrames n) v 0); rewrite ?Hlen;
    [lia | | | exact B | exact P | exact L].
  - intros j Hj. rewrite tsAt_evenFrames by lia.
    assert (Hjf : (Z.of_nat j <= f)%Z) by lia.
    apply (Qle_trans _ (33 * inject_Z f)).
    + rewrite inject_Z_mult. apply Qmult_le_l; [reflexivity|].
      rewrite <- Zle_Qle. exact Hjf.
    + apply (Qmult_le_l _ _ (/33)); [reflexivity|].
      rewrite Qmult_assoc. setoid_replace (/33 * 33) with 1 by reflexivity.
      rewrite Qmult_1_l. rewrite Qmult_comm. exact Hfl.
  - destruct (Nat.le_gt_cases (n - 1) (Z.to_nat f + 1)) as [Hc|Hc].
    + left. lia.
    + right. rewrite Nat.min_r by lia. rewrite tsAt_evenFrames by lia.
      replace (Z.of_nat (Z.to_nat f + 1)) with (f + 1)%Z by lia.
      rewrite inject_Z_mult.
      apply (Qmult_lt_r _ _ (/33)); [reflexivity|].
      rewrite (Qmult_comm (inject_Z 33)), <- Qmult_assoc.
      setoid_replace (inject_Z 33 * / 33) with 1 by reflexivity.
      rewrite Qmult_1_r. exact Hfu.
Qed.

(** A replay started at index [k] at speed [s] and driven by ticks at
    non-decreasing times [t0, ..., tm] keeps running, and its index is the
    result of a single search from [k] for the virtual time
    [stored[k].timeMs + s * (tm - t0)]. *)
Theorem replay_ticks_compose (stored : list StoredFrame) (k : nat) (s : Q)
    (st : ReplayState) (t0 : Q) (ts : list Q) :
  (k < length stored)%nat -> 0 <= s -> nondecreasing (t0 :: ts) = true ->
  let st' := runTicks stored (t0 :: ts) (startReplay stored k s st) in
  isReplaying st' = true /\ replayPaused st' = false /\
  replayIdx st' = searchFrame stored (tsAt stored k + s * (last ts t0 - t0)) k.
Proof.
  intros Hk Hs Hnd st'.
  destruct (start_then_ticks stored k s st t0 ts Hk Hs Hnd) as [v' [Hr Hv']].
  subst st'. rewrite Hr; cbn [isReplaying replayPaused replayIdx].
  split; [reflexivity|]. split; [reflexivity|].
  unfold searchFrame. apply advance_Qeq. exact Hv'.
Qed.

Lemma replay_ticks_compose_witness :
  let stored := evenFrames 11 in
  let st' := runTicks stored [0; 16; 33; 100] (startReplay stored 2 (1#2) initialState) in
  isReplaying st' = true /\ replayPaused st' = false /\
  replayIdx st' = searchFrame stored (tsAt stored 2 + (1#2) * (100 - 0)) 2.
Proof.
  exact (replay_ticks_compose (evenFrames 11) 2 (1#2) initialState 0 [16; 33; 100]
           ltac:(apply Nat.ltb_lt; reflexivity) ltac:(vm_compute; discriminate)
           ltac:(vm_compute; reflexivity)).
Defined.

(** The frame search from index [k] (a valid index) for a virtual time [t]
    stops at the first index [r >= k] that is the last frame or whose
    timestamp exceeds [t]: all frames from [k] up to [r] have timestamps at
    most [t]. *)
Theorem searchFrame_first_later_frame (stored : list StoredFrame) (t : Q) (k : nat) :
  (k < length stored)%nat ->
  let r := searchFrame stored t k in
  (k <= r <= length stored - 1)%nat /\
  (forall j, (k <= j < r)%nat -> tsAt stored j <= t) /\
  (r = (length stored - 1)%nat \/ t < tsAt stored r).
Proof. intros Hk; apply advance_spec; lia. Qed.

Lemma searchFrame_first_later_frame_witness :
  let r := searchFrame (evenFrames 4) 40 0 in
  (0 <= r <= length (evenFrames 4) - 1)%nat /\
  (forall j, (0 <= j < r)%nat -> tsAt (evenFrames 4) j <= 40) /\
  (r = (length (evenFrames 4) - 1)%nat \/ 40 < tsAt (evenFrames 4) r).
Proof.
  apply (searchFrame_first_later_frame (evenFrames 4) 40 0). apply Nat.ltb_lt; reflexivity.
Defined.

(** Frames captured every 33 ms, replay from index 0 at speed [s >= 0]:
    after ticks at non-decreasing times [t0, ..., tm] the index is
    [min (n-1) (floor (s * (tm - t0) / 33) + 1)]. *)
Theorem replay_even_frames_index (n : nat) (s : Q) (st : ReplayState) (t0 : Q) (ts : list Q) :
  (0 < n)%nat -> 0 <= s -> nondecreasing (t0 :: ts) = true ->
  replayIdx (runTicks (evenFrames n) (t0 :: ts) (startReplay (evenFrames n) 0 s st))
  = Nat.min (n - 1) (Z.to_nat (Qfloor (s * (last ts t0 - t0) / 33)) + 1).
Proof.
  intros Hn Hs Hnd.
  assert (Hk : (0 < length (evenFrames n))%nat) by (rewrite length_evenFrames; exact Hn).
  destruct (start_then_ticks (evenFrames n) 0 s st t0 ts Hk Hs Hnd) as [v' [Hr Hv']].
  rewrite Hr; cbn [replayIdx].
  assert (Hts0 : tsAt (evenFrames n) 0 == 0) by (rewrite tsAt_evenFrames by lia; reflexivity).
  assert (Hlast : t0 <= last ts t0).
  { clear -Hnd. revert t0 Hnd. induction ts as [|t ts IH]; intros t0 Hnd.
    - apply Qle_refl.
    - apply andb_prop in Hnd as [H1 H2]. apply Qle_bool_iff in H1.
      rewrite last_cons_default. apply (Qle_trans _ t); [exact H1|]. apply IH; exact H2. }
  assert (Hv0 : v' == s * (last ts t0 - t0)) by (rewrite Hv', Hts0; ring).
  assert (Hpos : 0 <= s * (last ts t0 - t0)).
  { apply Qmult_le_0_compat; [exact Hs|]. apply (Qplus_le_l _ _ t0). ring_simplify. exact Hlast. }
  rewrite (search_evenFrames n v' Hn) by (rewrite Hv0; exact Hpos).
  rewrite Hv0. reflexivity.
Qed.

Lemma replay_even_frames_index_witness :
  replayIdx (runTicks (evenFrames 30) [0; 100; 200; 330]
               (startReplay (evenFrames 30) 0 2 initialState))
  = Nat.min 29 (Z.to_nat (Qfloor (2 * (330 - 0) / 33)) + 1).
Proof.
  apply (replay_even_frames_index 30 2 initialState 0 [100; 200; 330]).
  - lia.
  - vm_compute; discriminate.
  - vm_compute; reflexivity.
Defined.

(** Seeking backward during playback (to any index between the start index
    and the current one) is undone by the next tick: the loop's virtual
    timestamp is not moved by the seek, so the tick returns to the same index
    as without the seek. *)
Theorem seek_back_undone_by_next_tick (stored : list StoredFrame) (k : nat) (s : Q)
    (st : ReplayState) (t0 : Q) (ts : list Q) (j : nat) (t' : Q) :
  (k < length stored)%nat -> 0 <= s -> nondecreasing (t0 :: ts) = true ->
  last ts t0 <= t' ->
  let st' := runTicks stored (t0 :: ts) (startReplay stored k s st) in
  (k <= j <= replayIdx st')%nat ->
  replayIdx (replayLoop stored t' (handleSeek j st')) = replayIdx (replayLoop stored t' st').
Proof.
  intros Hk Hs Hnd Ht' st' Hj.
  destruct (start_then_ticks stored k s st t0 ts Hk Hs Hnd) as [v' [Hr _]].
  subst st'. rewrite Hr in *; cbn [replayIdx] in Hj.
  destruct (search_spec stored v' k Hk) as [[B1 B2] [P _]].
  unfold replayLoop, handleSeek; cbn [isReplaying replayPaused replayIdx negb
    lastRealTime lastFrameTime loopSpeed replaySpeed].
  assert (E1 : (length stored <=? j)%nat = false) by (apply Nat.leb_gt; lia).
  assert (E2 : (length stored <=? searchFrame stored v' k)%nat = false)
    by (apply Nat.leb_gt; lia).
  rewrite E1, E2; cbv zeta; cbn [replayIdx].
  set (lft := v' + (t' - last ts t0) * s).
  assert (Hvl : v' <= lft).
  { subst lft. assert (0 <= (t' - last ts t0) * s).
    { apply Qmult_le_0_compat; [|exact Hs].
      apply (Qplus_le_l _ _ (last ts t0)). ring_simplify. exact Ht'. }
    apply (Qplus_le_l _ _ (- v')). ring_simplify. ring_simplify in H. exact H. }
  assert (Pl : forall i, (k <= i < searchFrame stored v' k)%nat -> tsAt stored i <= lft)
    by (intros i Hi; apply (Qle_trans _ v'); [apply P; lia | exact Hvl]).
  transitivity (searchFrame stored lft k).
  - replace j with (k + (j - k))%nat at 1 by lia.
    symmetry; apply search_skip; [lia|]. intros i Hi; apply Pl; lia.
  - replace (searchFrame stored v' k) with (k + (searchFrame stored v' k - k))%nat at 1 by lia.
    apply search_skip; [lia|]. intros i Hi; apply Pl; lia.
Qed.

Lemma seek_back_undone_by_next_tick_witness :
  let stored := evenFrames 11 in
  let st' := runTicks stored [0; 100; 200] (startReplay stored 0 1 initialState) in
  replayIdx st' = 7%nat /\
  replayIdx (replayLoop stored 216 (handleSeek 1 st')) = replayIdx (replayLoop stored 216 st').
Proof.
  split; [vm_compute; reflexivity|].
  apply (seek_back_undone_by_next_tick (evenFrames 11) 0 1 initialState 0 [100; 200] 1 216).
  - apply Nat.ltb_lt; reflexivity.
  - vm_compute; discriminate.
  - vm_compute; reflexivity.
  - vm_compute; discriminate.
  - split; apply Nat.leb_le; vm_compute; reflexivity.
Defined.

(** Scrubbing from a stopped replay: the seek bar's mouse-down starts a
    paused replay at index 0, the seek moves the index to [j], and resume
    restarts the ticks.  The loop's virtual timestamp still starts from frame
    0's timestamp, so after ticks at non-decreasing times [t0, ..., tm] at
    the current speed [s] the index is the search from [j] for
    [stored[0].timeMs + s * (tm - t0)]: playback stays on frame [j] as long
    as that time is below frame [j]'s timestamp. *)
Theorem scrub_resume_restarts_from_frame0_time (stored : list StoredFrame)
    (st : ReplayState) (j : nat) (t0 : Q) (ts : list Q) :
  isReplaying st = false -> (j < length stored)%nat -> 0 <= replaySpeed st ->
  nondecreasing (t0 :: ts) = true ->
  let v := tsAt stored 0 + replaySpeed st * (last ts t0 - t0) in
  let st' := runTicks stored (t0 :: ts)
               (toggleReplayPause (handleSeek j (seekbarMouseDown stored st))) in
  replayIdx st' = searchFrame stored v j /\
  (v < tsAt stored j -> replayIdx st' = j).
Proof.
  intros Hr Hj Hs Hnd v st'.
  assert (Hpre : toggleReplayPause (handleSeek j (seekbarMouseDown stored st)) =
                 mkState true false j (replaySpeed st) (replaySpeed st) None (tsAt stored 0)).
  { unfold seekbarMouseDown. rewrite Hr.
    destruct stored as [|f0 fs]; [simpl in Hj; lia|]. reflexivity. }
  assert (Hidx : replayIdx st' = searchFrame stored v j).
  { subst st'. rewrite Hpre. cbn [runTicks].
    unfold replayLoop; cbn [isReplaying replayPaused replayIdx negb
      lastRealTime lastFrameTime loopSpeed replaySpeed].
    assert (E : (length stored <=? j)%nat = false) by (apply Nat.leb_gt; lia).
    rewrite E; cbv zeta.
    destruct (ticks_invariant stored j (replaySpeed st) t0 (replaySpeed st) (tsAt stored 0)
                Hj Hs ts t0 (tsAt stored 0 + (t0 - t0) * replaySpeed st) Hnd ltac:(ring))
      as [v' [Hrun Hv']].
    rewrite Hrun; cbn [replayIdx].
    unfold searchFrame. apply advance_Qeq. rewrite Hv'. subst v. reflexivity. }
  split; [exact Hidx|].
  intros Hlt. rewrite Hidx.
  destruct (search_spec stored v j Hj) as [[B1 B2] [P _]].
  destruct (Nat.eq_dec (searchFrame stored v j) j) as [E|Ne]; [exact E|].
  exfalso. apply (Qlt_not_le _ _ Hlt). apply P. lia.
Qed.

Lemma scrub_resume_restarts_from_frame0_time_witness :
  let stored := evenFrames 11 in
  let st' := runTicks stored [0; 16; 100]
               (toggleReplayPause (handleSeek 5 (seekbarMouseDown stored initialState))) in
  replayIdx st' = 5%nat.
Proof.
  apply (scrub_resume_restarts_from_frame0_time (evenFrames 11) initialState 5 0 [16; 100]).
  - reflexivity.
  - apply Nat.ltb_lt; reflexivity.
  - vm_compute; discriminate.
  - vm_compute; reflexivity.
  - vm_compute; reflexivity.
Defined.

End ReplayFacts.

(** * Form scorer: properties *)
Module ScorerFacts.
Import Scorer Samples.
Local Open Scope R_scope.

Lemma items_evaluateForm (frames : list FrameAngleData) :
  items (evaluateForm frames) = evalItems frames.
Proof.
  destruct frames as [|f fs]; [reflexivity|].
  unfold evaluateForm; cbv zeta.
  destruct (evalItems (f :: fs)); reflexivity.
Qed.

Lemma map_label_pushes (l : list (option EvalItem)) :
  map label (fold_right pushSome [] l) =
  fold_right (fun o acc => match option_map label o with
                           | Some c => c :: acc | None => acc end) [] l.
Proof.
  induction l as [|[it|] l IH]; simpl; [reflexivity| rewrite IH; reflexivity | exact IH].
Qed.

(** Each block pushes an item labelled with its own criterion exactly when
    its guard holds. *)
Lemma oshide_push v (acc : list Criterion) :
  match option_map label (oshideItem v) with Some c => c :: acc | None => acc end =
  if (5 <? length v)%nat then Oshide :: acc else acc.
Proof. unfold oshideItem; destruct (5 <? length v)%nat; reflexivity. Qed.

Lemma mate_push v (acc : list Criterion) :
  match option_map label (mateItem v) with Some c => c :: acc | None => acc end =
  if (5 <? length v)%nat then Mate :: acc else acc.
Proof. unfold mateItem; destruct (5 <? length v)%nat; reflexivity. Qed.

Lemma symmetry_push v w (acc : list Criterion) :
  match option_map label (symmetryItem v w) with Some c => c :: acc | None => acc end =
  if (5 <? length v)%nat && (5 <? length w)%nat then Symmetry :: acc else acc.
Proof. unfold symmetryItem; destruct ((5 <? length v)%nat && (5 <? length w)%nat); reflexivity. Qed.

Lemma sanju_push v (acc : list Criterion) :
  match option_map label (sanjuItem v) with Some c => c :: acc | None => acc end =
  if (5 <? length v)%nat then Sanjujumonji :: acc else acc.
Proof. unfold sanjuItem; destruct (5 <? length v)%nat; reflexivity. Qed.

Lemma dozukuri_push v (acc : list Criterion) :
  match option_map label (dozukuriItem v) with Some c => c :: acc | None => acc end =
  if (5 <? length v)%nat then Dozukuri :: acc else acc.
Proof. unfold dozukuriItem; destruct (5 <? length v)%nat; reflexivity. Qed.

Lemma kai_push n v w (acc : list Criterion) :
  match option_map label (kaiItem n v w) with Some c => c :: acc | None => acc end =
  if (5 <? length v - length v * 55 / 100)%nat && (5 <? length w - length w * 55 / 100)%nat
  then KaiStability :: acc else acc.
Proof.
  unfold kaiItem, slice55; rewrite !length_skipn.
  destruct ((5 <? length v - length v * 55 / 100)%nat &&
            (5 <? length w - length w * 55 / 100)%nat); reflexivity.
Qed.

Lemma smoothness_push v (acc : list Criterion) :
  match option_map label (smoothnessItem v) with Some c => c :: acc | None => acc end =
  if (10 <? length v)%nat then Smoothness :: acc else acc.
Proof. unfold smoothnessItem; destruct (10 <? length v)%nat; reflexivity. Qed.

Lemma monomi_push v (acc : list Criterion) :
  match option_map label (monomiItem v) with Some c => c :: acc | None => acc end =
  if (5 <? length v)%nat then Monomi :: acc else acc.
Proof. unfold monomiItem, isNaN; destruct (5 <? length v)%nat; reflexivity. Qed.

Lemma kuchiwari_push v (acc : list Criterion) :
  match option_map label (kuchiwariItem v) with Some c => c :: acc | None => acc end =
  if (5 <? length v)%nat then Kuchiwari :: acc else acc.
Proof. unfold kuchiwariItem, isNaN; destruct (5 <? length v)%nat; reflexivity. Qed.

(** The labels of the report are the enabled criteria, in order. *)
Lemma labels_evaluateForm (frames : list FrameAngleData) :
  map label (items (evaluateForm frames)) = enabledCriteria frames.
Proof.
  rewrite items_evaluateForm; unfold evalItems; cbv zeta.
  rewrite map_label_pushes; cbn [fold_right].
  rewrite kuchiwari_push, monomi_push, smoothness_push, kai_push, dozukuri_push,
    sanju_push, symmetry_push, mate_push, oshide_push.
  unfold enabledCriteria, allCriteria; cbn [filter].
  unfold critEnabled, validCount; cbv zeta.
  reflexivity.
Qed.

Lemma In_enabledCriteria (c : Criterion) (frames : list FrameAngleData) :
  In c (enabledCriteria frames) <-> critEnabled c frames = true.
Proof.
  unfold enabledCriteria; rewrite filter_In.
  split; [intros [_ H]; exact H|].
  intros H; split; [|exact H].
  destruct c; simpl; tauto.
Qed.

Lemma sumScores_fold_right (its : list EvalItem) :
  sumScores its = fold_right Rplus 0 (map score its).
Proof.
  unfold sumScores.
  assert (G : forall l a, fold_left (fun a b => a + score b) l a
                          = a + fold_right Rplus 0 (map score l)).
  { induction l as [|it l IH]; intros a; simpl; [ring|].
    rewrite IH; ring. }
  rewrite G; ring.
Qed.

(** ** C3: amended statement.  A criterion appears in the report exactly
    when its own guard holds ([critEnabled]): more than 5 valid samples of its
    metric(s) for seven criteria, more than 10 left-elbow samples for draw
    smoothness, more than 5 samples in the last 45 percent of both elbow
    sequences for hold stability; otherwise it is absent, not scored 0. *)
Theorem evaluateForm_included_iff_guard (frames : list FrameAngleData) (c : Criterion) :
  In c (map label (items (evaluateForm frames))) <-> critEnabled c frames = true.
Proof.
  rewrite labels_evaluateForm; apply In_enabledCriteria.
Qed.

(** ** C3: counterexample.  In six frames where every metric is available,
    the left-elbow sequence has six valid samples, yet the draw-smoothness
    criterion (which asks for more than ten) and the hold-phase criterion (more
    than five in the last 45 percent) are both absent from the report. *)
Theorem smoothness_needs_more_than_five :
  (validCount leftElbow sixFullFrames = 6)%nat /\
  ~ In Smoothness (map label (items (evaluateForm sixFullFrames))) /\
  ~ In KaiStability (map label (items (evaluateForm sixFullFrames))).
Proof.
  rewrite labels_evaluateForm.
  split; [reflexivity|].
  vm_compute. split; intros H; decompose [or] H; try discriminate; contradiction.
Qed.

(** ** C6
    The empty sequence gives total 0, the unrated rank and no items. *)
Theorem evaluateForm_empty :
  evaluateForm [] = mkEval 0 Unrated [].
Proof. reflexivity. Qed.

(** ** C10
    A non-empty sequence in which no criterion's guard holds gives the same
    neutral report as the empty one. *)
Theorem evaluateForm_no_items_neutral (frames : list FrameAngleData) :
  frames <> [] ->
  (forall c, critEnabled c frames = false) ->
  evaluateForm frames = mkEval 0 Unrated [].
Proof.
  intros Hne Hoff.
  assert (Hnil : evalItems frames = []).
  { pose proof (labels_evaluateForm frames) as L.
    rewrite items_evaluateForm in L.
    assert (E : enabledCriteria frames = []).
    { unfold enabledCriteria, allCriteria; cbn [filter]; rewrite !Hoff; reflexivity. }
    rewrite E in L; destruct (evalItems frames); [reflexivity|discriminate]. }
  destruct frames as [|f fs]; [congruence|].
  unfold evaluateForm; cbv zeta; rewrite Hnil; reflexivity.
Qed.

Lemma evaluateForm_no_items_neutral_witness :
  threeEmptyFrames <> [] /\
  (forall c, critEnabled c threeEmptyFrames = false) /\
  evaluateForm threeEmptyFrames = mkEval 0 Unrated [].
Proof.
  assert (H1 : threeEmptyFrames <> []) by discriminate.
  assert (H2 : forall c, critEnabled c threeEmptyFrames = false)
    by (intros []; reflexivity).
  split; [exact H1|]. split; [exact H2|].
  apply (evaluateForm_no_items_neutral threeEmptyFrames H1 H2).
Defined.

(** ** C5
    With at least one item, the total is [Math.round] of the unweighted mean
    of the item scores (an integer within 1/2 of it), and the rank is chosen
    by the bands 90, 78, 65, 52, 38. *)
Theorem evaluateForm_total_and_rank (frames : list FrameAngleData) :
  items (evaluateForm frames) <> [] ->
  let its := items (evaluateForm frames) in
  let m := fold_right Rplus 0 (map score its) / INR (length its) in
  let t := total (evaluateForm frames) in
  t = mathRound m /\
  (exists z : Z, t = IZR z) /\ m - /2 < t <= m + /2 /\
  (90 <= t -> rank (evaluateForm frames) = Dan4to5) /\
  (78 <= t < 90 -> rank (evaluateForm frames) = Dan3) /\
  (65 <= t < 78 -> rank (evaluateForm frames) = Dan2) /\
  (52 <= t < 65 -> rank (evaluateForm frames) = Dan1) /\
  (38 <= t < 52 -> rank (evaluateForm frames) = Kyu) /\
  (t < 38 -> rank (evaluateForm frames) = NeedsBasics).
Proof.
  intros Hne its m t.
  assert (Hform : evaluateForm frames =
                  mkEval (mathRound (sumScores its / INR (length its)))
                         (rankOf (mathRound (sumScores its / INR (length its)))) its).
  { subst its; rewrite items_evaluateForm in *.
    destruct frames as [|f fs]; [exfalso; apply Hne; reflexivity|].
    unfold evaluateForm at 1; cbv zeta.
    destruct (evalItems (f :: fs)) as [|i0 l0]; [congruence|reflexivity]. }
  rewrite sumScores_fold_right in Hform; fold m in Hform.
  subst t; rewrite Hform; cbn [total rank].
  pose proof (base_Int_part (m + /2)) as [B1 B2].
  unfold mathRound, rankOf, Rleb.
  split; [reflexivity|]. split; [eexists; reflexivity|].
  split; [lra|].
  repeat split; intros;
    repeat (destruct (Rle_dec _ _)); first [reflexivity | lra].
Qed.

Lemma evaluateForm_total_and_rank_witness :
  items (evaluateForm sixElbowFrames) <> [] /\
  total (evaluateForm sixElbowFrames) =
    mathRound (fold_right Rplus 0 (map score (items (evaluateForm sixElbowFrames)))
               / INR (length (items (evaluateForm sixElbowFrames)))).
Proof.
  assert (H : items (evaluateForm sixElbowFrames) <> []).
  { intros E. pose proof (labels_evaluateForm sixElbowFrames) as L.
    rewrite E in L. vm_compute in L. discriminate. }
  split; [exact H|].
  apply (evaluateForm_total_and_rank sixElbowFrames H).
Defined.

(** ── bounds of the scores ── *)

Lemma Int_part_unique (r : R) (z : Z) : IZR z <= r < IZR z + 1 -> Int_part r = z.
Proof.
  intros [H1 H2]. unfold Int_part.
  assert (E : (z + 1)%Z = up r).
  { apply tech_up; rewrite plus_IZR; lra. }
  rewrite <- E. ring.
Qed.

Lemma mathRound_range (c : R) :
  0 <= c <= 100 -> exists z, mathRound c = IZR z /\ (0 <= z <= 100)%Z.
Proof.
  intros Hc. exists (Int_part (c + /2)). split; [reflexivity|].
  pose proof (base_Int_part (c + /2)) as [B1 B2].
  split.
  - assert (H : (-1 < Int_part (c + / 2))%Z) by (apply lt_IZR; lra). lia.
  - apply Z.lt_succ_r. apply lt_IZR. rewrite succ_IZR. lra.
Qed.

Lemma mathRound_le (c : R) (k : Z) : c <= IZR k -> mathRound c <= IZR k.
Proof.
  intros Hc. unfold mathRound.
  pose proof (base_Int_part (c + /2)) as [B1 B2].
  apply IZR_le. apply Z.lt_succ_r. apply lt_IZR. rewrite succ_IZR. lra.
Qed.

Lemma mathRound_eq_100 (c : R) : c <= 100 -> (mathRound c = 100 <-> 199 / 2 <= c).
Proof.
  intros Hc. unfold mathRound.
  pose proof (base_Int_part (c + /2)) as [B1 B2].
  split.
  - intros E. rewrite E in B1. lra.
  - intros H. rewrite (Int_part_unique (c + /2) 100) by lra. reflexivity.
Qed.

Lemma clamp_range (v lo hi : R) : lo <= hi -> lo <= clamp v lo hi <= hi.
Proof. intros H. unfold clamp, Rmin, Rmax. destruct (Rle_dec lo v), (Rle_dec hi _); lra. Qed.

Lemma clamp_id (v lo hi : R) : lo <= v <= hi -> clamp v lo hi = v.
Proof. intros H. unfold clamp, Rmin, Rmax. destruct (Rle_dec lo v), (Rle_dec hi _); lra. Qed.

Lemma clamp_le (v lo hi k : R) : lo <= k -> v <= k -> clamp v lo hi <= k.
Proof. intros H1 H2. unfold clamp, Rmin, Rmax. destruct (Rle_dec lo v), (Rle_dec hi _); lra. Qed.

Lemma stddev_nonneg (v : list R) : 0 <= stddev v.
Proof. unfold stddev. destruct (length v <? 2)%nat; [lra | apply sqrt_pos]. Qed.

Lemma Forall_pushes (P : EvalItem -> Prop) (l : list (option EvalItem)) :
  (forall o it, In o l -> o = Some it -> P it) -> Forall P (fold_right pushSome [] l).
Proof.
  induction l as [|o l IH]; intros H; cbn [fold_right]; [constructor|].
  assert (Ht : Forall P (fold_right pushSome [] l)) by (apply IH; intros; eapply H; [right|]; eauto).
  destruct o as [it|]; cbn [pushSome]; [|exact Ht].
  constructor; [|exact Ht]. eapply H; [left|]; reflexivity.
Qed.

Ltac item_shape :=
  intros H; cbv zeta in H;
  repeat match type of H with context [Nat.ltb ?a ?b] => destruct (Nat.ltb a b) end;
  unfold isNaN in H; cbn [andb negb] in H; try discriminate;
  injection H as <-; split; [reflexivity | eexists; reflexivity].

Lemma oshide_shape v it : oshideItem v = Some it ->
  label it = Oshide /\ exists sc, score it = mathRound (clamp sc 0 100).
Proof. unfold oshideItem; item_shape. Qed.

Lemma mate_shape v it : mateItem v = Some it ->
  label it = Mate /\ exists sc, score it = mathRound (clamp sc 0 100).
Proof. unfold mateItem; item_shape. Qed.

Lemma symmetry_shape v w it : symmetryItem v w = Some it ->
  label it = Symmetry /\ exists sc, score it = mathRound (clamp sc 0 100).
Proof. unfold symmetryItem; item_shape. Qed.

Lemma sanju_shape v it : sanjuItem v = Some it ->
  label it = Sanjujumonji /\ exists sc, score it = mathRound (clamp sc 0 100).
Proof. unfold sanjuItem; item_shape. Qed.

Lemma dozukuri_shape v it : dozukuriItem v = Some it ->
  label it = Dozukuri /\ exists sc, score it = mathRound (clamp sc 0 100).
Proof. unfold dozukuriItem; item_shape. Qed.

Lemma kai_shape n v w it : kaiItem n v w = Some it ->
  label it = KaiStability /\ exists sc, score it = mathRound (clamp sc 0 100).
Proof. unfold kaiItem; item_shape. Qed.

Lemma smoothness_shape v it : smoothnessItem v = Some it ->
  label it = Smoothness /\ exists sc, score it = mathRound (clamp sc 0 100).
Proof. unfold smoothnessItem; item_shape. Qed.

Lemma monomi_shape v it : monomiItem v = Some it ->
  label it = Monomi /\ exists sc, score it = mathRound (clamp sc 0 100).
Proof. unfold monomiItem; item_shape. Qed.

Lemma kuchiwari_shape v it : kuchiwariItem v = Some it ->
  label it = Kuchiwari /\ exists sc, score it = mathRound (clamp sc 0 100).
Proof. unfold kuchiwariItem; item_shape. Qed.

Ltac block_cases Hin :=
  cbn [In] in Hin;
  repeat match type of Hin with
  | _ \/ _ => destruct Hin as [<-|Hin]
  | False => destruct Hin
  end.

Ltac shape Ho :=
  match type of Ho with
  | oshideItem _ = Some _ => pose proof (oshide_shape _ _ Ho)
  | mateItem _ = Some _ => pose proof (mate_shape _ _ Ho)
  | symmetryItem _ _ = Some _ => pose proof (symmetry_shape _ _ _ Ho)
  | sanjuItem _ = Some _ => pose proof (sanju_shape _ _ Ho)
  | dozukuriItem _ = Some _ => pose proof (dozukuri_shape _ _ Ho)
  | kaiItem _ _ _ = Some _ => pose proof (kai_shape _ _ _ _ Ho)
  | smoothnessItem _ = Some _ => pose proof (smoothness_shape _ _ Ho)
  | monomiItem _ = Some _ => pose proof (monomi_shape _ _ Ho)
  | kuchiwariItem _ = Some _ => pose proof (kuchiwari_shape _ _ Ho)
  end.

(** Every item of the report carries the block's label and a score of the
    form [Math.round(clamp(s, 0, 100))], for every frame sequence. *)
Lemma items_shape (frames : list FrameAngleData) :
  Forall (fun it => exists sc, score it = mathRound (clamp sc 0 100)) (items (evaluateForm frames)).
Proof.
  rewrite items_evaluateForm; unfold evalItems; cbv zeta.
  apply Forall_pushes. intros o it Hin Ho. block_cases Hin;
    shape Ho; match goal with H : _ /\ _ |- _ => exact (proj2 H) end.
Qed.

Lemma items_scores_int (frames : list FrameAngleData) :
  Forall (fun it => exists z, score it = IZR z /\ (0 <= z <= 100)%Z) (items (evaluateForm frames)).
Proof.
  eapply Forall_impl; [|apply items_shape].
  intros it [sc ->]. apply mathRound_range. apply clamp_range. lra.
Qed.

Lemma sum_scores_bound (its : list EvalItem) :
  Forall (fun it => 0 <= score it <= 100) its ->
  0 <= fold_right Rplus 0 (map score its) <= 100 * INR (length its).
Proof.
  induction its as [|it its IH]; intros H; cbn [fold_right map length]; [simpl; lra|].
  inversion H as [|? ? Hit Hits]; subst.
  specialize (IH Hits). rewrite S_INR. lra.
Qed.

(** Every item score and the total are whole numbers between 0 and 100. *)
Theorem evaluateForm_scores_in_range (frames : list FrameAngleData) :
  Forall (fun it => exists z, score it = IZR z /\ (0 <= z <= 100)%Z) (items (evaluateForm frames)) /\
  exists z, total (evaluateForm frames) = IZR z /\ (0 <= z <= 100)%Z.
Proof.
  split; [apply items_scores_int|].
  pose proof (items_scores_int frames) as Hall.
  rewrite items_evaluateForm in Hall.
  destruct frames as [|f fs]; [exists 0%Z; split; [reflexivity | lia]|].
  unfold evaluateForm; cbv zeta.
  destruct (evalItems (f :: fs)) as [|i0 l0] eqn:E; [exists 0%Z; split; [reflexivity | lia]|].
  cbn [total]. apply mathRound_range.
  assert (Hb : Forall (fun it => 0 <= score it <= 100) (i0 :: l0)).
  { eapply Forall_impl; [|exact Hall]. intros it [z [-> Hz]].
    split; [apply IZR_le; lia | apply IZR_le; lia]. }
  pose proof (sum_scores_bound _ Hb) as [S1 S2].
  rewrite sumScores_fold_right.
  set (n := length (i0 :: l0)) in *.
  assert (Hn : 0 < INR n) by (subst n; cbn [length]; rewrite S_INR; pose proof (pos_INR (length l0)); lra).
  split.
  - unfold Rdiv. apply Rmult_le_pos; [lra|]. left; apply Rinv_0_lt_compat; lra.
  - apply (Rmult_le_reg_r (INR n)); [exact Hn|].
    unfold Rdiv. rewrite Rmult_assoc, Rinv_l by lra. lra.
Qed.

Lemma oshide_core (v : list R) (it : EvalItem) :
  oshideItem v = Some it ->
  (score it = 100 <-> 159.875 <= mathMax v <= 172.05).
Proof.
  unfold oshideItem; cbv zeta. destruct (5 <? length v)%nat; [|discriminate].
  intros H; injection H as <-; cbn [score].
  set (p := mathMax v).
  pose proof (clamp_range ((p - 120) * 2) 0 60 ltac:(lra)) as Hc.
  unfold Rleb, Rltb.
  repeat match goal with
  | |- context [Rle_dec ?a ?b] => destruct (Rle_dec a b)
  | |- context [Rlt_dec ?a ?b] => destruct (Rlt_dec a b)
  end; cbv beta iota delta [andb];
  first [ exfalso; lra
        | rewrite clamp_id by lra; rewrite mathRound_eq_100 by lra; split; intros; lra ].
Qed.

(** Elbow extension gets full marks exactly when the peak left-elbow angle
    lies in [159.875, 172.05]: the rounding widens the [160, 172] band of
    the "correctly extended" comment on both sides. *)
Theorem oshide_full_marks_band (frames : list FrameAngleData) :
  Forall (fun it => label it = Oshide ->
            (score it = 100 <-> 159.875 <= mathMax (nn (map leftElbow frames)) <= 172.05))
         (items (evaluateForm frames)).
Proof.
  rewrite items_evaluateForm; unfold evalItems; cbv zeta.
  apply Forall_pushes. intros o it Hin Ho. block_cases Hin; intros Hl;
  match type of Ho with
  | oshideItem _ = Some _ => exact (oshide_core _ _ Ho)
  | _ => shape Ho; match goal with H : _ /\ _ |- _ => destruct H as [E _] end; congruence
  end.
Qed.

Lemma kai_core (n : nat) (v w : list R) (it : EvalItem) :
  kaiItem n v w = Some it ->
  ((n <= 136)%nat -> score it <= 75) /\ ((n <= 272)%nat -> score it <= 90).
Proof.
  unfold kaiItem; cbv zeta.
  destruct ((5 <? length (slice55 v))%nat && (5 <? length (slice55 w))%nat); [|discriminate].
  intros H; injection H as <-; cbn [score].
  pose proof (stddev_nonneg (slice55 v)). pose proof (stddev_nonneg (slice55 w)).
  set (a := (stddev (slice55 v) + stddev (slice55 w)) / 2).
  assert (Ha : 0 <= a) by (subst a; lra).
  unfold Rleb.
  split; intros Hn; apply le_INR in Hn; rewrite INR_IZR_INZ in Hn; cbn in Hn;
    apply (mathRound_le _ (Z.of_nat _)) || apply mathRound_le;
    (destruct (Rle_dec 3 (INR n / 30 * 0.33)) as [H3|H3];
     [rewrite INR_IZR_INZ in H3; lra|]);
    (destruct (Rle_dec 1.5 (INR n / 30 * 0.33)) as [H15|H15]);
    try (rewrite INR_IZR_INZ in H15; lra);
    apply clamp_le; try lra; apply clamp_le; lra.
Qed.

(** Hold-phase stability is capped by the recording's length (the code
    converts [n] frames to [n / 30 * 0.33] seconds): at most 75 points with
    136 frames or fewer, at most 90 with 272 or fewer. *)
Theorem kai_score_capped_by_length (frames : list FrameAngleData) :
  Forall (fun it => label it = KaiStability ->
            ((length frames <= 136)%nat -> score it <= 75) /\
            ((length frames <= 272)%nat -> score it <= 90))
         (items (evaluateForm frames)).
Proof.
  rewrite items_evaluateForm; unfold evalItems; cbv zeta.
  apply Forall_pushes. intros o it Hin Ho. block_cases Hin; intros Hl;
  match type of Ho with
  | kaiItem _ _ _ = Some _ => exact (kai_core _ _ _ _ Ho)
  | _ => shape Ho; match goal with H : _ /\ _ |- _ => destruct H as [E _] end; congruence
  end.
Qed.

End ScorerFacts.

(** * Geometry: properties *)
Module GeometryFacts.
Import Geometry Samples.
Local Open Scope R_scope.

(** [Math.atan2] takes its values in (-PI, PI]. *)
Lemma atan2_bound (yy xx : R) : - PI < atan2 yy xx <= PI.
Proof.
  pose proof PI_RGT_0 as Hpi.
  unfold atan2.
  destruct (Rlt_dec 0 xx) as [Hx|Hx].
  { pose proof (atan_bound (yy / xx)); lra. }
  destruct (Rlt_dec xx 0) as [Hx'|Hx'].
  { assert (Hinv : / xx < 0) by (apply Rinv_lt_0_compat; exact Hx').
    destruct (Rle_dec 0 yy) as [Hy|Hy].
    - assert (Hq : yy / xx <= 0) by (unfold Rdiv; nra).
      assert (Ha : atan (yy / xx) <= 0).
      { destruct (Rle_lt_or_eq_dec _ _ Hq) as [Hl|He].
        - pose proof (atan_increasing _ _ Hl); rewrite atan_0 in *; lra.
        - rewrite He, atan_0; lra. }
      pose proof (atan_bound (yy / xx)); lra.
    - assert (Hq : 0 < yy / xx) by (unfold Rdiv; nra).
      pose proof (atan_increasing _ _ Hq); rewrite atan_0 in *.
      pose proof (atan_bound (yy / xx)); lra. }
  destruct (Rlt_dec 0 yy); [lra|].
  destruct (Rlt_dec yy 0); lra.
Qed.

Lemma deg_scale_le (a b : R) : a <= b * PI -> a * (180 / PI) <= b * 180.
Proof.
  intros H. pose proof PI_RGT_0 as Hpi.
  assert (Hk : 0 < 180 / PI) by (unfold Rdiv; apply Rmult_lt_0_compat; [lra|apply Rinv_0_lt_compat; lra]).
  replace (b * 180) with (b * PI * (180 / PI)) by (field; lra).
  apply Rmult_le_compat_r; lra.
Qed.

Lemma deg_scale_lt (a b : R) : a < b * PI -> a * (180 / PI) < b * 180.
Proof.
  intros H. pose proof PI_RGT_0 as Hpi.
  assert (Hk : 0 < 180 / PI) by (unfold Rdiv; apply Rmult_lt_0_compat; [lra|apply Rinv_0_lt_compat; lra]).
  replace (b * 180) with (b * PI * (180 / PI)) by (field; lra).
  apply Rmult_lt_compat_r; lra.
Qed.

(** ** C7
    [calcAngle] is symmetric in its outer points, invariant under a common
    translation, 0 when one of the two arms has length 0, and within [0, 180]. *)
Theorem calcAngle_properties (a b c : Point) :
  calcAngle a b c = calcAngle c b a /\
  (forall t, calcAngle (translate t a) (translate t b) (translate t c) = calcAngle a b c) /\
  (sqrt ((x a - x b) ^ 2 + (y a - y b) ^ 2) = 0 \/
   sqrt ((x c - x b) ^ 2 + (y c - y b) ^ 2) = 0 -> calcAngle a b c = 0) /\
  0 <= calcAngle a b c <= 180.
Proof.
  split; [|split; [|split]].
  - unfold calcAngle; cbv zeta.
    rewrite (Rmult_comm (sqrt ((x c - x b) ^ 2 + (y c - y b) ^ 2))).
    replace ((x c - x b) * (x a - x b) + (y c - y b) * (y a - y b))
      with ((x a - x b) * (x c - x b) + (y a - y b) * (y c - y b)) by ring.
    reflexivity.
  - intros t. unfold calcAngle, translate; cbn [x y]; cbv zeta.
    assert (E : forall u v w, u + w - (v + w) = u - v) by (intros; ring).
    rewrite !E. reflexivity.
  - intros Hz. unfold calcAngle; cbv zeta.
    destruct (Req_dec_T _ 0) as [|Hn]; [reflexivity|].
    exfalso; apply Hn; destruct Hz as [Hz|Hz]; rewrite Hz; ring.
  - unfold calcAngle; cbv zeta.
    destruct (Req_dec_T _ 0); [lra|].
    pose proof PI_RGT_0.
    pose proof (acos_bound (Rmax (-1) (Rmin 1
      (((x a - x b) * (x c - x b) + (y a - y b) * (y c - y b)) /
       (sqrt ((x a - x b) ^ 2 + (y a - y b) ^ 2) *
        sqrt ((x c - x b) ^ 2 + (y c - y b) ^ 2)))))) as [H0 H1].
    split.
    + apply Rmult_le_pos; [lra|].
      unfold Rdiv; apply Rmult_le_pos; [lra|].
      left; apply Rinv_0_lt_compat; lra.
    + eapply Rle_trans; [apply deg_scale_le with (b := 1); lra | lra].
Qed.

Lemma atan2_pos_x_axis : atan2 (0 - 0) (1 - 0) = 0.
Proof.
  unfold atan2. destruct (Rlt_dec 0 (1 - 0)) as [_|H]; [|lra].
  replace ((0 - 0) / (1 - 0)) with 0 by (unfold Rdiv; ring). apply atan_0.
Qed.

Lemma atan2_neg_x_axis : atan2 (0 - 0) (0 - 1) = PI.
Proof.
  unfold atan2. destruct (Rlt_dec 0 (0 - 1)) as [H|_]; [lra|].
  destruct (Rlt_dec (0 - 1) 0) as [_|H]; [|lra].
  destruct (Rle_dec 0 (0 - 0)) as [_|H]; [|lra].
  replace ((0 - 0) / (0 - 1)) with 0 by (unfold Rdiv; ring). rewrite atan_0; ring.
Qed.

(** ** C8 counterexample.  The raw difference is exactly -180
    degrees; neither correction applies and -180 is returned, outside the
    half-open interval (-180, 180]. *)
Theorem monomi_half_turn_is_minus_180 :
  ad_monomiAngle (calcKyudoAngles halfTurnLandmarks) = Some (-180) /\
  ~ (-180 < -180 <= 180).
Proof.
  split; [|lra].
  unfold calcKyudoAngles, lm; cbn [nth_error halfTurnLandmarks]; cbv zeta.
  f_equal. unfold monomiOf; cbn [x y origin].
  rewrite atan2_pos_x_axis, atan2_neg_x_axis.
  replace ((0 - PI) * (180 / PI)) with (-180) by (pose proof PI_RGT_0; field; lra).
  destruct (Rlt_dec 180 (-180)); [lra|].
  destruct (Rlt_dec (-180) (-180)); [lra|].
  reflexivity.
Qed.

(** ** C8 amended statement.  With both ears and both
    shoulders present, the head-rotation angle is the raw difference
    (ear-line minus shoulder-line orientation, in degrees) moved by 360 once
    when it lies outside [-180, 180]; the result lies in the closed interval
    [-180, 180]. *)
Theorem monomi_normalised_closed (lms : list Point) (le re ls rs : Point) :
  lm lms 7 = Some le -> lm lms 8 = Some re ->
  lm lms 11 = Some ls -> lm lms 12 = Some rs ->
  let raw := (atan2 (y re - y le) (x re - x le) - atan2 (y rs - y ls) (x rs - x ls))
             * (180 / PI) in
  exists v, ad_monomiAngle (calcKyudoAngles lms) = Some v /\
    -180 <= v <= 180 /\
    (180 < raw -> v = raw - 360) /\
    (raw < -180 -> v = raw + 360) /\
    (-180 <= raw <= 180 -> v = raw).
Proof.
  intros H7 H8 H11 H12 raw.
  exists (monomiOf le re ls rs).
  split.
  { unfold calcKyudoAngles; cbv zeta. rewrite H7, H8, H11, H12. reflexivity. }
  pose proof (atan2_bound (y re - y le) (x re - x le)) as [E1 E2].
  pose proof (atan2_bound (y rs - y ls) (x rs - x ls)) as [S1 S2].
  pose proof (deg_scale_lt (atan2 (y re - y le) (x re - x le) - atan2 (y rs - y ls) (x rs - x ls)) 2
                ltac:(lra)) as U.
  pose proof (deg_scale_lt (atan2 (y rs - y ls) (x rs - x ls) - atan2 (y re - y le) (x re - x le)) 2
                ltac:(lra)) as L.
  assert (Hneg : (atan2 (y rs - y ls) (x rs - x ls) - atan2 (y re - y le) (x re - x le)) * (180 / PI)
                 = - raw) by (unfold raw; ring).
  rewrite Hneg in L. fold raw in U.
  unfold monomiOf; cbv zeta. fold raw.
  destruct (Rlt_dec 180 raw);
    [destruct (Rlt_dec (raw - 360) (-180)) | destruct (Rlt_dec raw (-180))];
    repeat split; intros; lra.
Qed.

Lemma monomi_normalised_closed_witness :
  exists v, ad_monomiAngle (calcKyudoAngles halfTurnLandmarks) = Some v /\ -180 <= v <= 180.
Proof.
  destruct (monomi_normalised_closed halfTurnLandmarks (mkPt 0 0) (mkPt 1 0) (mkPt 1 0) (mkPt 0 0)
              ltac:(reflexivity) ltac:(reflexivity) ltac:(reflexivity) ltac:(reflexivity))
    as [v [Hv [Hb _]]].
  exists v. split; [exact Hv | exact Hb].
Defined.

Lemma calcAngle_range (a b c : Point) : 0 <= calcAngle a b c <= 180.
Proof.
  unfold calcAngle; cbv zeta.
  destruct (Req_dec_T _ 0); [lra|].
  pose proof PI_RGT_0.
  pose proof (acos_bound (Rmax (-1) (Rmin 1
    (((x a - x b) * (x c - x b) + (y a - y b) * (y c - y b)) /
     (sqrt ((x a - x b) ^ 2 + (y a - y b) ^ 2) *
      sqrt ((x c - x b) ^ 2 + (y c - y b) ^ 2)))))) as [H0 H1].
  split.
  - apply Rmult_le_pos; [lra|].
    unfold Rdiv; apply Rmult_le_pos; [lra|].
    left; apply Rinv_0_lt_compat; lra.
  - eapply Rle_trans; [apply deg_scale_le with (b := 1); lra | lra].
Qed.

Lemma deg_abs_range (a b : R) : 0 <= Rabs (atan2 a b * (180 / PI)) <= 180.
Proof.
  pose proof (atan2_bound a b) as [L U].
  pose proof (deg_scale_le (atan2 a b) 1 ltac:(lra)) as H1.
  pose proof (deg_scale_le (- atan2 a b) 1 ltac:(lra)) as H2.
  replace (- atan2 a b * (180 / PI)) with (- (atan2 a b * (180 / PI))) in H2 by ring.
  split; [apply Rabs_pos|]. apply Rabs_le; lra.
Qed.

Lemma sub_translate_x (t p q : Point) : x (translate t p) - x (translate t q) = x p - x q.
Proof. unfold translate; cbn [x]; ring. Qed.

Lemma sub_translate_y (t p q : Point) : y (translate t p) - y (translate t q) = y p - y q.
Proof. unfold translate; cbn [y]; ring. Qed.

Lemma mid_translate_x (t p q r u : Point) :
  (x (translate t p) + x (translate t q)) / 2 - (x (translate t r) + x (translate t u)) / 2 =
  (x p + x q) / 2 - (x r + x u) / 2.
Proof. unfold translate; cbn [x]; field. Qed.

Lemma mid_translate_y (t p q r u : Point) :
  (y (translate t p) + y (translate t q)) / 2 - (y (translate t r) + y (translate t u)) / 2 =
  (y p + y q) / 2 - (y r + y u) / 2.
Proof. unfold translate; cbn [y]; field. Qed.

Lemma mouth_translate (t n rw le re : Point) :
  y (translate t rw) - (y (translate t n) + ((y (translate t le) + y (translate t re)) / 2
                                              - y (translate t n)) * 0.55) =
  y rw - (y n + ((y le + y re) / 2 - y n) * 0.55).
Proof. unfold translate; cbn [y]; field. Qed.

Lemma calcAngle_translate (t a b c : Point) :
  calcAngle (translate t a) (translate t b) (translate t c) = calcAngle a b c.
Proof. unfold calcAngle; cbv zeta. rewrite !sub_translate_x, !sub_translate_y. reflexivity. Qed.

Lemma monomiOf_translate (t le re ls rs : Point) :
  monomiOf (translate t le) (translate t re) (translate t ls) (translate t rs) =
  monomiOf le re ls rs.
Proof. unfold monomiOf; cbv zeta. rewrite !sub_translate_x, !sub_translate_y. reflexivity. Qed.



(** The elbow and shoulder angles and the hip and spine tilts, when present,
    lie in [0, 180] degrees. *)
Theorem calcKyudoAngles_ranges (lms : list Point) :
  let a := calcKyudoAngles lms in
  (forall v, ad_leftElbow a = Some v -> 0 <= v <= 180) /\
  (forall v, ad_rightElbow a = Some v -> 0 <= v <= 180) /\
  (forall v, ad_leftShoulder a = Some v -> 0 <= v <= 180) /\
  (forall v, ad_rightShoulder a = Some v -> 0 <= v <= 180) /\
  (forall v, ad_hipTilt a = Some v -> 0 <= v <= 180) /\
  (forall v, ad_spineTilt a = Some v -> 0 <= v <= 180).
Proof.
  unfold calcKyudoAngles, lm; cbv zeta.
  repeat match goal with |- _ /\ _ => split end;
    cbn [ad_leftElbow ad_rightElbow ad_leftShoulder ad_rightShoulder ad_hipTilt
         ad_spineTilt];
    repeat match goal with
    | |- context [nth_error ?l ?i] => destruct (nth_error l i)
    end;
    intros v Hv; try discriminate; injection Hv as <-;
    first [apply calcAngle_range | apply deg_abs_range].
Qed.

(** [calcKyudoAngles] depends only on the relative positions of the
    landmarks: shifting all of them by the same vector gives the same
    metrics. *)
Theorem calcKyudoAngles_translate (t : Point) (lms : list Point) :
  calcKyudoAngles (map (translate t) lms) = calcKyudoAngles lms.
Proof.
  unfold calcKyudoAngles, lm; cbv zeta.
  rewrite !nth_error_map.
  f_equal;
    repeat match goal with
    | |- context [nth_error ?l ?i] => destruct (nth_error l i)
    end; cbn [option_map]; try reflexivity;
    rewrite ?calcAngle_translate, ?monomiOf_translate, ?sub_translate_x, ?sub_translate_y,
      ?mid_translate_x, ?mid_translate_y, ?mouth_translate; reflexivity.
Qed.

End GeometryFacts.

Module CaptureFacts.
Import Replay Scorer Geometry Capture.

Lemma runResults_inv (rs : list (option (list Point) * Q)) :
  forall st0 m,
  frameRef st0 = m -> displayCount st0 = m ->
  map cf_frame (storedFrames st0) = seq 0 m ->
  frameAngles st0 = map angleOf (storedFrames st0) ->
  let st := runResults rs st0 in
  frameRef st = (m + length (detections rs))%nat /\
  displayCount st = (m + length (detections rs))%nat /\
  map cf_frame (storedFrames st) = seq 0 (m + length (detections rs)) /\
  map (fun cf => (cf_landmarks cf, cf_timeMs cf)) (storedFrames st) =
    map (fun cf => (cf_landmarks cf, cf_timeMs cf)) (storedFrames st0) ++
    map (fun p => (fst p, (snd p * 1000)%Q)) (detections rs) /\
  frameAngles st = map angleOf (storedFrames st).
Proof.
  induction rs as [|[[l|] t] rs IH]; intros st0 m Hf Hd Hs Ha; cbn [runResults detections].
  - rewrite Nat.add_0_r, app_nil_r. repeat split; assumption.
  - cbn [onResults].
    destruct (IH (mkCapture (S (frameRef st0))
                   (storedFrames st0 ++ [mkCaptured (frameRef st0) (t * 1000)%Q l])
                   (frameAngles st0 ++ [toFrameAngle (frameRef st0) (calcKyudoAngles l)])
                   (S (frameRef st0))) (S m))
      as [H1 [H2 [H3 [H4 H5]]]]; cbn [frameRef displayCount storedFrames frameAngles].
    + rewrite Hf; reflexivity.
    + rewrite Hf; reflexivity.
    + rewrite map_app, Hs, Hf, seq_S. reflexivity.
    + rewrite map_app, Ha. reflexivity.
    + cbn [length]. rewrite <- Nat.add_succ_comm.
      split; [exact H1|]. split; [exact H2|]. split; [exact H3|]. split; [|exact H5].
      rewrite H4; cbn [storedFrames]; rewrite map_app, <- app_assoc. reflexivity.
  - apply IH; assumption.
Qed.

(** After the reset, a sequence of [onResults] calls records one frame per
    result that carries landmarks, and none for the others: the frames are
    numbered 0, 1, ..., n-1; they keep the landmarks and the video time in
    milliseconds of those results, in order; [frameRef] and the displayed
    count are n; and the angle series holds, for each stored frame, its
    number and the metrics of its landmarks. *)
Theorem capture_records_detections (rs : list (option (list Point) * Q)) :
  let st := runResults rs resetCapture in
  let d := detections rs in
  frameRef st = length d /\ displayCount st = length d /\
  map cf_frame (storedFrames st) = seq 0 (length d) /\
  map (fun cf => (cf_landmarks cf, cf_timeMs cf)) (storedFrames st) =
    map (fun p => (fst p, (snd p * 1000)%Q)) d /\
  frameAngles st =
    map (fun cf => toFrameAngle (cf_frame cf) (calcKyudoAngles (cf_landmarks cf)))
        (storedFrames st).
Proof.
  exact (runResults_inv rs resetCapture 0 eq_refl eq_refl eq_refl eq_refl).
Qed.

Lemma nondecreasing_drop (a b : Q) (l : list Q) :
  nondecreasing (a :: b :: l) = true -> nondecreasing (a :: l) = true.
Proof.
  destruct l as [|c l]; [reflexivity|].
  cbn [nondecreasing]. intros H.
  apply andb_prop in H as [Hab H]. apply andb_prop in H as [Hbc H].
  apply Qle_bool_iff in Hab, Hbc.
  rewrite H, andb_true_r. apply Qle_bool_iff. exact (Qle_trans _ _ _ Hab Hbc).
Qed.

Lemma nondecreasing_tail (a : Q) (l : list Q) :
  nondecreasing (a :: l) = true -> nondecreasing l = true.
Proof.
  destruct l as [|b l]; [reflexivity|].
  cbn [nondecreasing]. intros H. apply andb_prop in H as [_ H]. exact H.
Qed.

Lemma nondecreasing_detections (rs : list (option (list Point) * Q)) :
  forall a, nondecreasing (a :: map snd rs) = true ->
  nondecreasing (a :: map snd (detections rs)) = true.
Proof.
  induction rs as [|[[l|] t] rs IH]; intros a H; cbn [detections map snd] in *.
  - exact H.
  - cbn [nondecreasing] in H |- *. apply andb_prop in H as [Hat H].
    rewrite Hat. apply IH. exact H.
  - apply IH. apply (nondecreasing_drop a t). exact H.
Qed.

Lemma nondecreasing_scale (l : list Q) :
  nondecreasing l = true -> nondecreasing (map (fun q => (q * 1000)%Q) l) = true.
Proof.
  induction l as [|a l IH]; [reflexivity|].
  destruct l as [|b l]; [reflexivity|].
  cbn [nondecreasing map] in *. intros H. apply andb_prop in H as [Hab H].
  apply Qle_bool_iff in Hab.
  change (map (fun q => (q * 1000)%Q) (b :: l)) with ((b * 1000)%Q :: map (fun q => (q * 1000)%Q) l) in IH.
  rewrite IH by exact H. rewrite andb_true_r.
  apply Qle_bool_iff. apply Qmult_le_r; [reflexivity | exact Hab].
Qed.

(** When the results arrive at non-decreasing video times, the stored
    frames' timestamps are non-decreasing too: the replay buffer is in time
    order. *)
Theorem capture_timestamps_sorted (rs : list (option (list Point) * Q)) :
  nondecreasing (map snd rs) = true ->
  nondecreasing (map cf_timeMs (storedFrames (runResults rs resetCapture))) = true.
Proof.
  intros H.
  destruct (runResults_inv rs resetCapture 0 eq_refl eq_refl eq_refl eq_refl)
    as [_ [_ [_ [H4 _]]]].
  set (L := storedFrames (runResults rs resetCapture)) in *.
  assert (Ht : map cf_timeMs L = map (fun q => (q * 1000)%Q) (map snd (detections rs))).
  { transitivity (map snd (map (fun cf => (cf_landmarks cf, cf_timeMs cf)) L));
      [rewrite map_map; reflexivity|].
    rewrite H4. cbn [storedFrames resetCapture map app].
    rewrite !map_map. reflexivity. }
  rewrite Ht. apply nondecreasing_scale.
  destruct rs as [|[[l|] t] rs]; [reflexivity| |];
    cbn [map snd detections] in H |- *;
    pose proof (nondecreasing_detections rs t H) as Hd.
  - exact Hd.
  - exact (nondecreasing_tail t _ Hd).
Qed.

Lemma capture_timestamps_sorted_witness :
  nondecreasing (map cf_timeMs (storedFrames (runResults
    [(Some [], 0%Q); (None, (1#60)%Q); (Some [], (1#30)%Q)] resetCapture))) = true.
Proof.
  apply capture_timestamps_sorted. vm_compute; reflexivity.
Defined.

(** The evaluation effect fires exactly when the video has ended and at
    least one result carried landmarks; it then scores the whole angle
    series, and [totalFrames] is the number of stored frames, which is the
    length of that series and the frame counter. *)
Theorem evaluation_after_capture (rs : list (option (list Point) * Q)) (status : Status) :
  let st := runResults rs resetCapture in
  (evaluationEffect status st <> None <-> status = Done /\ detections rs <> []) /\
  (forall e n, evaluationEffect status st = Some (e, n) ->
     e = evaluateForm (frameAngles st) /\ n = length (frameAngles st) /\
     n = frameRef st /\ n = length (detections rs)).
Proof.
  intros st.
  destruct (runResults_inv rs resetCapture 0 eq_refl eq_refl eq_refl eq_refl)
    as [H1 [_ [H3 [_ H5]]]].
  fold st in H1, H3, H5. cbn [Nat.add] in H1, H3.
  assert (Hlen : length (frameAngles st) = length (detections rs)).
  { rewrite H5, length_map. rewrite <- (length_map cf_frame), H3. apply length_seq. }
  unfold evaluationEffect.
  split.
  - split.
    + intros H. destruct status; try (exfalso; apply H; reflexivity).
      destruct (frameAngles st) eqn:E; [exfalso; apply H; reflexivity|].
      split; [reflexivity|]. intros Hn. rewrite Hn in Hlen. discriminate.
    + intros [Hs Hd]. subst status.
      destruct (frameAngles st) eqn:E; [|discriminate].
      try rewrite E in Hlen.
      destruct (detections rs); [exfalso; apply Hd; reflexivity | discriminate].
  - intros e n. destruct status; try discriminate.
    destruct (frameAngles st) as [|f fs] eqn:E; [discriminate|].
    intros Heq; injection Heq as <- <-.
    assert (Hs : length (storedFrames st) = length (detections rs))
      by (rewrite <- (length_map cf_frame), H3; apply length_seq).
    rewrite Hs. split; [reflexivity|].
    split; [symmetry; exact Hlen|]. split; [symmetry; exact H1|reflexivity].
Qed.

End CaptureFacts.

Module OverlayFacts.
Import Geometry Overlay.
Local Open Scope R_scope.


Lemma lm_None_le (lms : list Point) (i : nat) :
  lm lms i = None -> (length lms <= i)%nat.
Proof. intros H. apply nth_error_None. exact H. Qed.



(** The wrist guide: with the right wrist and the nose present, a dashed
    horizontal line is drawn across the canvas at the wrist's height; it is
    orange exactly when the wrist is above [nose.y + 0.05] (the estimated
    mouth [nose.y + 0.03] plus the 0.02 margin), and green otherwise. *)
Theorem overlay_wrist_line_colour (lms : list Point) (w h : R) (rw n : Point) :
  lm lms 16 = Some rw -> lm lms 0 = Some n ->
  exists col,
    In (Line 0 (y rw * h) w (y rw * h) col 1.5 [4; 4]) (drawPoseOverlay lms w h) /\
    (col = "#f97316"%string <-> y rw < y n + 0.05) /\
    (col <> "#f97316"%string -> col = "#a3e635"%string).
Proof.
  intros H16 H0.
  exists (if Rlt_dec (y rw) ((y n + (y n + 0.06)) / 2 + 0.02) then "#f97316"%string
          else "#a3e635"%string).
  split.
  - unfold drawPoseOverlay. rewrite H16, H0. cbv zeta.
    apply in_or_app; right. apply in_or_app; right. apply in_or_app; right.
    left; reflexivity.
  - destruct (Rlt_dec (y rw) ((y n + (y n + 0.06)) / 2 + 0.02)) as [Hl|Hl].
    + split; [split; [intros _; lra | reflexivity] | intros Hc; exfalso; apply Hc; reflexivity].
    + split; [split; [discriminate | intros Hc; exfalso; apply Hl; lra] | reflexivity].
Qed.

Lemma overlay_wrist_line_colour_witness :
  exists col,
    In (Line 0 (y (mkPt 0 0) * 360) 640 (y (mkPt 0 0) * 360) col 1.5 [4; 4])
       (drawPoseOverlay (repeat (mkPt 0 0) 17) 640 360) /\
    (col = "#f97316"%string <-> y (mkPt 0 0) < y (mkPt 0 0) + 0.05) /\
    (col <> "#f97316"%string -> col = "#a3e635"%string).
Proof.
  exact (overlay_wrist_line_colour (repeat (mkPt 0 0) 17) 640 360 (mkPt 0 0) (mkPt 0 0)
           eq_refl eq_refl).
Defined.



End OverlayFacts.
